(** * bandito: the multi-armed bandit simulation of [bandito/bandito.py]

    A shallow embedding of class [Bandit] (constructor, [simulate] and the
    four metric accessors) together with the Python library functions the
    loop body calls ([itertools.accumulate], [bisect.bisect], [sum], [max]),
    followed by the properties of the run that the specification states.

    Modelling decisions, all read off the source:
    - Python [int] is [Z]; a Python list is a [list], read with [!!] and
      updated with [<[i:=v]>]; an out-of-range subscript raises [IndexError].
    - Python [float] is an abstract number type [R] with the operations the
      code applies to it (class [Num]); the counters and the score are
      integers, so their properties hold for every such [R].  Exact rational
      arithmetic ([Q_Num]) is the number type of runs whose policy functions
      return exact numbers and of the properties stated in exact arithmetic;
      [Float_Num] is binary64, where additions round.
    - The ambient random generator and the clock are a world [W] threaded
      through every call ([random.random()], [datetime.datetime.now()] and
      the four policy functions, which may draw random numbers and may
      raise).  The policy functions do not mutate the lists they are handed.
    - A raised exception aborts the run: the model returns [Raise e] and no
      state. *)

From Stdlib Require Import Floats.PrimFloat Floats.SpecFloat Floats.FloatOps.
From Stdlib Require Import ZArith QArith Lia Lqa.
From stdpp Require Import base list.
From Equations Require Import Equations.

Local Open Scope Z_scope.

(** ** Exceptions and the world-passing monad *)

Inductive exn : Type :=
| IndexError
| ValueError
| ZeroDivisionError
| OverflowError
| PolicyError (code : Z).

Inductive result (A : Type) : Type :=
| Ok (a : A)
| Raise (e : exn).
Arguments Ok {A} a.
Arguments Raise {A} e.

Definition M (W A : Type) : Type := W -> result (A * W).

Definition ret {W A} (a : A) : M W A := fun w => Ok (a, w).

Definition bind {W A B} (m : M W A) (k : A -> M W B) : M W B :=
  fun w => match m w with
           | Ok (a, w') => k a w'
           | Raise e => Raise e
           end.

Definition lift {W A} (r : result A) : M W A :=
  fun w => match r with
           | Ok a => Ok (a, w)
           | Raise e => Raise e
           end.

Notation "'let*' x ':=' m 'in' k" := (bind m (fun x => k))
  (at level 10, x name, m at level 100, k at level 200).

(** [[f() for i in range(n)]], for [n] the length of the range. *)
Fixpoint replicateM {W A} (n : nat) (m : M W A) : M W (list A) :=
  match n with
  | O => ret []
  | S n' => let* a := m in let* l := replicateM n' m in ret (a :: l)
  end.

(** [[f(i) for i in l]] for a body that may raise and touches no world. *)
Fixpoint map_result {A B} (f : A -> result B) (l : list A) : result (list B) :=
  match l with
  | [] => Ok []
  | a :: l' =>
      match f a with
      | Raise e => Raise e
      | Ok v => match map_result f l' with
                | Raise e => Raise e
                | Ok vs => Ok (v :: vs)
                end
      end
  end.

(** [range(n)] for a Python integer [n]: [0, ..., n-1], empty when [n <= 0];
    it has [Z.to_nat n] elements. *)
Definition range (n : Z) : list nat := seq 0 (Z.to_nat n).

(** ** Numbers *)

(** The operations of [bandito.py] on floating-point values.  [pow2 x] is
    [x ** 2], which raises [OverflowError] on floats; [div_int x n] is
    [x / n] for an integer [n], which raises [ZeroDivisionError]. *)
Class Num (R : Type) : Type := {
  zero : R;
  one : R;
  half : R;
  add : R -> R -> R;
  sub : R -> R -> R;
  ltb : R -> R -> bool;
  pow2 : R -> result R;
  div_int : R -> Z -> result R
}.

Definition Qltb (x y : Q) : bool := negb (Qle_bool y x).

#[export] Instance Q_Num : Num Q := {
  zero := 0%Q;
  one := 1%Q;
  half := (1 # 2)%Q;
  add := Qplus;
  sub := Qminus;
  ltb := Qltb;
  pow2 := fun x => Ok (x * x)%Q;
  div_int := fun x n =>
    if Z.eqb n 0 then Raise ZeroDivisionError else Ok (x / inject_Z n)%Q
}.

(** ** Python built-ins used by the loop body *)

Section Builtins.
Context {R : Type} {num : Num R}.

(** [l[i]] for [i >= 0]. *)
Definition getitem {A} (l : list A) (i : nat) : result A :=
  match l !! i with
  | Some v => Ok v
  | None => Raise IndexError
  end.

(** [l[i] += d] on a list of integers; the updated list. *)
Definition iadd_item (l : list Z) (i : nat) (d : Z) : result (list Z) :=
  match l !! i with
  | Some v => Ok (<[i := v + d]> l)
  | None => Raise IndexError
  end.

(** [l[-1]] *)
Definition getitem_last {A} (l : list A) : result A :=
  match last l with
  | Some v => Ok v
  | None => Raise IndexError
  end.

(** [itertools.accumulate(l)]: the running sums, the first being [l[0]]. *)
Fixpoint accumulate_from (total : R) (l : list R) : list R :=
  match l with
  | [] => []
  | p :: l' => let total' := add total p in total' :: accumulate_from total' l'
  end.

Definition accumulate (l : list R) : list R :=
  match l with
  | [] => []
  | p :: l' => p :: accumulate_from p l'
  end.

(** [bisect.bisect] is [bisect_right]:
<<
    while lo < hi:
        mid = (lo + hi) // 2
        if x < a[mid]: hi = mid
        else: lo = mid + 1
    return lo
>>
    [mid < hi <= len(a)] throughout, so the default of [nth] is never read. *)
Equations? bisect_loop (a : list R) (x : R) (lo hi : nat) : nat
  by wf (hi - lo)%nat lt :=
  bisect_loop a x lo hi with lt_dec lo hi => {
    | left _ with ltb x (nth ((lo + hi) / 2) a zero) => {
        | true := bisect_loop a x lo ((lo + hi) / 2)%nat
        | false := bisect_loop a x (S ((lo + hi) / 2)) hi };
    | right _ := lo }.
Proof.
  all: change (fst (Nat.divmod (lo + hi) 1 0 1)) with ((lo + hi) / 2)%nat.
  all: pose proof (Nat.div_mod_eq (lo + hi) 2).
  all: pose proof (Nat.mod_upper_bound (lo + hi) 2).
  all: lia.
Qed.

Definition bisect (a : list R) (x : R) : nat := bisect_loop a x 0 (length a).

(** [sum(l)]: starts from the integer [0] and adds from the left. *)
Definition pysum (l : list R) : R := fold_left add l zero.

(** [max(l)]: keeps the current maximum unless an item is greater;
    [ValueError] on an empty sequence. *)
Definition pymax (l : list R) : result R :=
  match l with
  | [] => Raise ValueError
  | p :: l' => Ok (fold_left (fun m item => if ltb m item then item else m) l' p)
  end.
End Builtins.

(** Sum of a list of counters (used to state the invariants). *)
Definition sumZ (l : list Z) : Z := foldr Z.add 0 l.

(** ** The ambient random generator and clock *)

(** [random_random] is [random.random()]: a draw and the generator's next
    state.  [datetime_now] is [datetime.datetime.now()], in microseconds. *)
Class Ambient (W R : Type) : Type := {
  random_random : W -> R * W;
  datetime_now : W -> Z * W
}.

(** ** Class [Bandit] *)

Section BanditModel.
Context {R : Type} {num : Num R} {W : Type} {amb : Ambient W R}.

Definition random : M W R := fun w => Ok (random_random w).
Definition now : M W Z := fun w => Ok (datetime_now w).

(** The attributes of a [Bandit] object.  [_simtime] does not exist until
    [simulate] has finished. *)
Record Bandit : Type := {
  _arms : Z;
  _turns : Z;
  _assetstock : Z;
  _complete : bool;
  _payoff_fxn : M W R;
  _payoffs : list R;
  _turbulence_fxn : list R -> M W R -> R -> M W (list R);
  _turbulence : R;
  _strategy_fxn : list R -> R -> M W (list R);
  _strategy : R;
  _belief_fxn : list R -> list Z -> list Z -> M W (list R);
  _tries : list Z;
  _wins : list Z;
  _beliefs : list R;
  _score : list Z;
  _knowledge : list R;
  _opinion : list R;
  _probexplore : list R;
  _simtime : option Z
}.

(** The object as [__init__] leaves it, [payoffs] being the values drawn
    from the payoff generator. *)
Definition constructed (arms turns : Z)
    (payoff_fxn : M W R)
    (turbulence_fxn : list R -> M W R -> R -> M W (list R))
    (strategy_fxn : list R -> R -> M W (list R))
    (turbulence : R)
    (belief_fxn : list R -> list Z -> list Z -> M W (list R))
    (strategy : R) (payoffs : list R) : Bandit :=
  {| _arms := arms;
     _turns := turns;
     _assetstock := 0;
     _complete := false;
     _payoff_fxn := payoff_fxn;
     _payoffs := payoffs;
     _turbulence_fxn := turbulence_fxn;
     _turbulence := turbulence;
     _strategy_fxn := strategy_fxn;
     _strategy := strategy;
     _belief_fxn := belief_fxn;
     _tries := replicate (Z.to_nat arms) 0;
     _wins := replicate (Z.to_nat arms) 0;
     _beliefs := replicate (Z.to_nat arms) half;
     _score := [];
     _knowledge := [];
     _opinion := [];
     _probexplore := [];
     _simtime := None |}.

(** [Bandit.__init__]: [[self._payoff_fxn() for i in range(arms)]] is the
    only step that can raise. *)
Definition __init__ (arms turns : Z)
    (payoff_fxn : M W R)
    (turbulence_fxn : list R -> M W R -> R -> M W (list R))
    (strategy_fxn : list R -> R -> M W (list R))
    (turbulence : R)
    (belief_fxn : list R -> list Z -> list Z -> M W (list R))
    (strategy : R) : M W Bandit :=
  let* payoffs := replicateM (Z.to_nat arms) payoff_fxn in
  ret (constructed arms turns payoff_fxn turbulence_fxn strategy_fxn turbulence
         belief_fxn strategy payoffs).

(** [1 - sum([(beliefs[i] - payoffs[i])**2 for i in range(arms)])] *)
Definition knowledge_metric (arms : Z) (beliefs payoffs : list R) : result R :=
  match map_result (fun i =>
          match getitem beliefs i with
          | Raise e => Raise e
          | Ok bi => match getitem payoffs i with
                     | Raise e => Raise e
                     | Ok pi => pow2 (sub bi pi)
                     end
          end) (range arms) with
  | Raise e => Raise e
  | Ok sq => Ok (sub one (pysum sq))
  end.

(** [sum([(beliefs[i] - (sum(beliefs)/arms))**2 for i in range(arms)])] *)
Definition opinion_metric (arms : Z) (beliefs : list R) : result R :=
  match map_result (fun i =>
          match getitem beliefs i with
          | Raise e => Raise e
          | Ok bi => match div_int (pysum beliefs) arms with
                     | Raise e => Raise e
                     | Ok mean => pow2 (sub bi mean)
                     end
          end) (range arms) with
  | Raise e => Raise e
  | Ok sq => Ok (pysum sq)
  end.

(** [1 - max(choice_probabilities)] *)
Definition probexplore_metric (choice_probabilities : list R) : result R :=
  match pymax choice_probabilities with
  | Raise e => Raise e
  | Ok m => Ok (sub one m)
  end.

(** The win-or-loss branch of a turn: the new [_wins] and [_assetstock]. *)
Definition outcome (won : bool) (wins : list Z) (choice : nat) (assetstock : Z)
    : result (list Z * Z) :=
  if won then
    match iadd_item wins choice 1 with
    | Raise e => Raise e
    | Ok wins' => Ok (wins', assetstock + 1)
    end
  else Ok (wins, assetstock - 1).

(** The body of the loop [for t in range(self._turns)] of [simulate]. *)
Definition turn (b : Bandit) : M W Bandit :=
  let* payoffs := _turbulence_fxn b (_payoffs b) (_payoff_fxn b) (_turbulence b) in
  let* choice_probabilities := _strategy_fxn b (_beliefs b) (_strategy b) in
  let cumdist := accumulate choice_probabilities in
  let* x := random in
  let choice := bisect cumdist x in
  let* tries := lift (iadd_item (_tries b) choice 1) in
  let* y := random in
  let* p := lift (getitem payoffs choice) in
  let* wa := lift (outcome (ltb y p) (_wins b) choice (_assetstock b)) in
  let* beliefs := _belief_fxn b (_beliefs b) tries (fst wa) in
  let* k := lift (knowledge_metric (_arms b) beliefs payoffs) in
  let* o := lift (opinion_metric (_arms b) beliefs) in
  let* pe := lift (probexplore_metric choice_probabilities) in
  ret {| _arms := _arms b;
         _turns := _turns b;
         _assetstock := snd wa;
         _complete := _complete b;
         _payoff_fxn := _payoff_fxn b;
         _payoffs := payoffs;
         _turbulence_fxn := _turbulence_fxn b;
         _turbulence := _turbulence b;
         _strategy_fxn := _strategy_fxn b;
         _strategy := _strategy b;
         _belief_fxn := _belief_fxn b;
         _tries := tries;
         _wins := fst wa;
         _beliefs := beliefs;
         _score := _score b ++ [snd wa];
         _knowledge := _knowledge b ++ [k];
         _opinion := _opinion b ++ [o];
         _probexplore := _probexplore b ++ [pe];
         _simtime := _simtime b |}.

(** [n] iterations of the loop body (the loop variable [t] is not used). *)
Fixpoint turns_loop (n : nat) (b : Bandit) : M W Bandit :=
  match n with
  | O => ret b
  | S n' => let* b' := turn b in turns_loop n' b'
  end.

(** [self._complete = True] and [self._simtime = endtime - starttime] *)
Definition finish (b : Bandit) (starttime endtime : Z) : Bandit :=
  {| _arms := _arms b;
     _turns := _turns b;
     _assetstock := _assetstock b;
     _complete := true;
     _payoff_fxn := _payoff_fxn b;
     _payoffs := _payoffs b;
     _turbulence_fxn := _turbulence_fxn b;
     _turbulence := _turbulence b;
     _strategy_fxn := _strategy_fxn b;
     _strategy := _strategy b;
     _belief_fxn := _belief_fxn b;
     _tries := _tries b;
     _wins := _wins b;
     _beliefs := _beliefs b;
     _score := _score b;
     _knowledge := _knowledge b;
     _opinion := _opinion b;
     _probexplore := _probexplore b;
     _simtime := Some (endtime - starttime) |}.

(** [Bandit.simulate] *)
Definition simulate (b : Bandit) : M W Bandit :=
  let* starttime := now in
  let* b' := turns_loop (Z.to_nat (_turns b)) b in
  let* endtime := now in
  ret (finish b' starttime endtime).

(** The accessors read the object and hand it back: the result is the
    returned value ([None] is Python's [None]) or the exception raised,
    paired with the object after the call. *)
Definition final_metric {A} (complete : bool) (history : list A)
    : result (option A) :=
  if complete then
    match getitem_last history with
    | Raise e => Raise e
    | Ok v => Ok (Some v)
    end
  else Ok None.

(** [Bandit.score] *)
Definition score (b : Bandit) : result (option Z) * Bandit :=
  (final_metric (_complete b) (_score b), b).

(** [Bandit.knowledge] *)
Definition knowledge (b : Bandit) : result (option R) * Bandit :=
  (final_metric (_complete b) (_knowledge b), b).

(** [Bandit.opinion] *)
Definition opinion (b : Bandit) : result (option R) * Bandit :=
  (final_metric (_complete b) (_opinion b), b).

(** [Bandit.probexplore] *)
Definition probexplore (b : Bandit) : result (option R) * Bandit :=
  (final_metric (_complete b) (_probexplore b), b).
End BanditModel.

(** ** A scripted world for concrete runs *)

(** The draws [random.random()] will return, the values the payoff generator
    will return, and the clock. *)
Record Script : Type := {
  draws : list Q;
  payoff_draws : list Q;
  clock : Z
}.

#[export] Instance Script_Ambient : Ambient Script Q := {
  random_random := fun w =>
    match draws w with
    | x :: rest => (x, {| draws := rest; payoff_draws := payoff_draws w; clock := clock w |})
    | [] => (0%Q, w)
    end;
  datetime_now := fun w =>
    (clock w, {| draws := draws w; payoff_draws := payoff_draws w; clock := clock w + 1 |})
}.

(** A payoff generator that returns the scripted values in turn. *)
Definition scripted_payoff : M Script Q := fun w =>
  match payoff_draws w with
  | p :: rest => Ok (p, {| draws := draws w; payoff_draws := rest; clock := clock w |})
  | [] => Raise (PolicyError 1)
  end.

(** A turbulence function that leaves the payoffs alone. *)
Definition no_turbulence (payoffs : list Q) (payoff_fxn : M Script Q) (turbulence : Q)
    : M Script (list Q) := ret payoffs.

(** A strategy that gives every arm the same probability. *)
Definition uniform_strategy (beliefs : list Q) (strategy : Q) : M Script (list Q) :=
  ret ((fun _ => 1 / inject_Z (Z.of_nat (length beliefs)))%Q <$> beliefs).

(** Modelled from the spec: [banditfunctions.simplebelief], which is not among
    the sources; the spec gives [beliefs[a] = (wins[a] + 1) / (tries[a] + 2)]. *)
Definition simplebelief (beliefs : list Q) (tries wins : list Z) : M Script (list Q) :=
  ret (zip_with (fun t w => (inject_Z (w + 1) / inject_Z (t + 2))%Q) tries wins).

(** The scenario of the specification: two arms with payoffs 0.9 and 0.1, the
    choice draw 0.5 and the outcome draw 0.05. *)
Definition scenario_world : Script :=
  {| draws := [(1 # 2)%Q; (1 # 20)%Q; (1 # 4)%Q; (19 # 20)%Q; (3 # 4)%Q; (1 # 2)%Q];
     payoff_draws := [(9 # 10)%Q; (1 # 10)%Q];
     clock := 0 |}.

Definition scenario (arms turns : Z) : M Script (@Bandit Q Script) :=
  __init__ arms turns scripted_payoff no_turbulence uniform_strategy 0%Q
           simplebelief (1 # 2)%Q.

(** The object and the world that construction leaves in the scenario. *)
Definition scenario_bandit (arms turns : Z) (payoffs : list Q) : @Bandit Q Script :=
  constructed arms turns scripted_payoff no_turbulence uniform_strategy 0%Q
              simplebelief (1 # 2)%Q payoffs.

Definition scenario_world_constructed : Script :=
  {| draws := draws scenario_world; payoff_draws := []; clock := 0 |}.

(** ** The selection rule in the words of the specification *)

(** "The first arm whose cumulative sum meets or exceeds the draw": the index
    of the first entry [c] of [cumdist] with [x <= c], or the length of
    [cumdist] when there is none. *)
Fixpoint first_meeting_or_exceeding (cumdist : list Q) (x : Q) : nat :=
  match cumdist with
  | [] => O
  | c :: rest => if Qle_bool x c then O else S (first_meeting_or_exceeding rest x)
  end.

(** ** The consistency of the counters and histories after [n] turns *)

Section Consistency.
Context {R : Type} {W : Type}.

Record consistent (n : nat) (b : @Bandit R W) : Prop := {
  tries_total : sumZ (_tries b) = Z.of_nat n;
  wins_le_tries : Forall2 (fun t wn => 0 <= wn <= t) (_tries b) (_wins b);
  arms_tracked : length (_tries b) = Z.to_nat (_arms b);
  stock_balance : _assetstock b = 2 * sumZ (_wins b) - sumZ (_tries b);
  score_length : length (_score b) = n;
  knowledge_length : length (_knowledge b) = n;
  opinion_length : length (_opinion b) = n;
  probexplore_length : length (_probexplore b) = n;
  score_last : n <> O -> last (_score b) = Some (_assetstock b)
}.
End Consistency.

(** ** Well-behaved policy functions, in exact arithmetic *)

Section WellBehaved.
Context {W : Type} {amb : Ambient W Q}.

(** The four per-arm lists all have one entry per arm. *)
Definition per_arm (b : @Bandit Q W) : Prop :=
  length (_payoffs b) = Z.to_nat (_arms b) /\
  length (_tries b) = Z.to_nat (_arms b) /\
  length (_wins b) = Z.to_nat (_arms b) /\
  length (_beliefs b) = Z.to_nat (_arms b).

(** The contracts of the random source and of the policy functions, on the
    worlds that satisfy [good]: every draw is below 1; no policy function
    raises, each returns one value per arm, and the choice probabilities add
    up to 1; all of them leave the world [good]. *)
Definition well_behaved (good : W -> Prop) (b : @Bandit Q W) : Prop :=
  (forall w, good w ->
     (fst (random_random w) < 1)%Q /\ good (snd (random_random w))) /\
  (forall w, good w -> good (snd (datetime_now w))) /\
  (forall payoffs w, good w -> length payoffs = Z.to_nat (_arms b) ->
     exists payoffs' w',
       _turbulence_fxn b payoffs (_payoff_fxn b) (_turbulence b) w = Ok (payoffs', w') /\
       good w' /\ length payoffs' = Z.to_nat (_arms b)) /\
  (forall beliefs w, good w -> length beliefs = Z.to_nat (_arms b) ->
     exists probs w',
       _strategy_fxn b beliefs (_strategy b) w = Ok (probs, w') /\
       good w' /\ length probs = Z.to_nat (_arms b) /\ (pysum probs == 1)%Q) /\
  (forall beliefs tries wins w, good w ->
     length beliefs = Z.to_nat (_arms b) -> length tries = Z.to_nat (_arms b) ->
     length wins = Z.to_nat (_arms b) ->
     exists beliefs' w',
       _belief_fxn b beliefs tries wins w = Ok (beliefs', w') /\
       good w' /\ length beliefs' = Z.to_nat (_arms b)).
End WellBehaved.

(** The scripted worlds whose remaining draws are all below 1. *)
Definition draws_below_1 (w : Script) : Prop :=
  Forall (fun d => d < 1)%Q (draws w).

(** A strategy that returns the same choice probabilities whatever the
    beliefs. *)
Definition fixed_strategy (probs : list Q) (beliefs : list Q) (strategy : Q)
    : M Script (list Q) := ret probs.

(** ** Binary64 numbers *)

(** Python's [float] on the platforms CPython runs on: IEEE 754 binary64
    with round-to-nearest-even, which is what the primitive floats compute
    for [+], [-], [/] and [<].  [x ** y] on floats is Python's own
    [float.__pow__] over the C library's [pow]; it is not part of the
    sources and is a parameter here.  (Since Python 3.12 [sum] adds floats
    with a compensation term, so [pysum] at this instance is the [sum] of
    earlier versions; the arm selection does not use [sum].) *)
Section Binary64.
Variable float_pow : float -> float -> result float.

(** [float(n)] for an integer operand: the nearest binary64 number, or
    [OverflowError] when [n] is too large. *)
Definition float_of_int (n : Z) : result float :=
  match SpecFloat.binary_normalize FloatOps.prec FloatOps.emax n 0 false with
  | S754_infinity _ => Raise OverflowError
  | sf => Ok (FloatOps.SF2Prim sf)
  end.

(** [x / n] for a float [x] and an integer [n]. *)
Definition float_div_int (x : float) (n : Z) : result float :=
  match float_of_int n with
  | Raise e => Raise e
  | Ok d => if PrimFloat.eqb d 0%float then Raise ZeroDivisionError
            else Ok (PrimFloat.div x d)
  end.

Definition Float_Num : Num float := {|
  zero := 0%float;
  one := 1%float;
  half := 0.5%float;
  add := PrimFloat.add;
  sub := PrimFloat.sub;
  ltb := PrimFloat.ltb;
  pow2 := fun x => float_pow x 2%float;
  div_int := float_div_int
|}.
End Binary64.

(** The rational number a finite float stands for: [m * 2^e], signed. *)
Definition float_value (x : float) : option Q :=
  match FloatOps.Prim2SF x with
  | S754_zero _ => Some 0%Q
  | S754_finite s m e =>
      Some ((if s then - (1) else 1) * (inject_Z (Z.pos m) * Qpower 2 e))%Q
  | _ => None
  end.

(** A scripted world of binary64 draws. *)
Record FloatScript : Type := {
  float_draws : list float;
  float_clock : Z
}.

#[export] Instance FloatScript_Ambient : Ambient FloatScript float := {
  random_random := fun w =>
    match float_draws w with
    | x :: rest => (x, {| float_draws := rest; float_clock := float_clock w |})
    | [] => (0%float, w)
    end;
  datetime_now := fun w =>
    (float_clock w, {| float_draws := float_draws w; float_clock := float_clock w + 1 |})
}.

(** Five choice probabilities that add up to exactly 1:
    [1 - 2^-53] and four times [2^-55]. *)
Definition rounding_probabilities : list float :=
  [0x1.fffffffffffffp-1; 0x1p-55; 0x1p-55; 0x1p-55; 0x1p-55]%float.

(** The largest float below 1, [1 - 2^-53], as the draw. *)
Definition rounding_draw : float := 0x1.fffffffffffffp-1%float.

(** A run of one turn on five arms whose strategy function returns
    [rounding_probabilities]; the payoff generator returns 0.5, the
    turbulence and belief functions hand back what they are given. *)
Definition rounding_run (float_pow : float -> float -> result float)
    : M FloatScript (@Bandit float FloatScript) :=
  let* b := __init__ (num := Float_Num float_pow) 5 1
              (ret 0.5%float)
              (fun payoffs _ _ => ret payoffs)
              (fun _ _ => ret rounding_probabilities)
              0%float
              (fun beliefs _ _ => ret beliefs)
              0.5%float in
  simulate (num := Float_Num float_pow) b.

(** ** The configuration of an object *)

Section Configuration.
Context {R : Type} {W : Type}.

(** [b'] has the arm count, the turn count, the four policy functions and the
    two policy parameters of [b]. *)
Definition same_configuration (b b' : @Bandit R W) : Prop :=
  _arms b' = _arms b /\
  _turns b' = _turns b /\
  _payoff_fxn b' = _payoff_fxn b /\
  _turbulence_fxn b' = _turbulence_fxn b /\
  _turbulence b' = _turbulence b /\
  _strategy_fxn b' = _strategy_fxn b /\
  _strategy b' = _strategy b /\
  _belief_fxn b' = _belief_fxn b.
End Configuration.

(** ** The script at the end of the file *)

(** What running [bandito.py] as a script comes to: an exception, or the two
    values handed to [print], the final asset stock ([b.score()]) and the
    simulation time ([b._simtime]). *)
Inductive main_outcome : Type :=
| MainRaised (e : exn)
| MainAssertionError
| MainAttributeError
| MainPrinted (final_asset_stock : option Z) (simulation_time : Z).

Section Main.
Context {R : Type} {num : Num R} {W : Type} {amb : Ambient W R}.

(** The block under [if __name__ == "__main__"].  [Bandit()] takes every
    default of [__init__]: 10 arms, 500 turns, turbulence [0], strategy
    [0.5], and the four functions imported from [banditfunctions], which are
    parameters here.  Reading [b._simtime] before [simulate] has set it is an
    [AttributeError]. *)
Definition main
    (betadist_payoff : M W R)
    (randomshock : list R -> M W R -> R -> M W (list R))
    (softmax_strategy : list R -> R -> M W (list R))
    (simplebelief : list R -> list Z -> list Z -> M W (list R))
    (w : W) : main_outcome :=
  match __init__ 10 500 betadist_payoff randomshock softmax_strategy zero
                 simplebelief half w with
  | Raise e => MainRaised e
  | Ok (b, w1) =>
      match fst (score b) with
      | Raise e => MainRaised e
      | Ok (Some _) => MainAssertionError
      | Ok None =>
          match simulate b w1 with
          | Raise e => MainRaised e
          | Ok (b', w2) =>
              match fst (score b') with
              | Raise e => MainRaised e
              | Ok final =>
                  match _simtime b' with
                  | None => MainAttributeError
                  | Some t => MainPrinted final t
                  end
              end
          end
      end
  end.
End Main.

(** * Properties *)

(** ** The monad *)

Section MonadFacts.
Context {W : Type}.

Lemma bind_Ok {A B} (m : M W A) (k : A -> M W B) w r :
  bind m k w = Ok r <-> exists a w1, m w = Ok (a, w1) /\ k a w1 = Ok r.
Proof.
  unfold bind. split.
  - destruct (m w) as [[a w1]|e]; [eauto | discriminate].
  - intros (a & w1 & -> & Hk). exact Hk.
Qed.

Lemma bind_Raise {A B} (m : M W A) (k : A -> M W B) w e :
  bind m k w = Raise e <->
  m w = Raise e \/ exists a w1, m w = Ok (a, w1) /\ k a w1 = Raise e.
Proof.
  unfold bind. split.
  - destruct (m w) as [[a w1]|e']; [eauto | intros [= ->]; auto].
  - intros [-> | (a & w1 & -> & Hk)]; auto.
Qed.

Lemma lift_Ok {A} (r : result A) w a w' :
  lift (W:=W) r w = Ok (a, w') <-> r = Ok a /\ w' = w.
Proof.
  unfold lift. destruct r as [a0|e]; split.
  - intros [= -> ->]. auto.
  - intros [[= ->] ->]. reflexivity.
  - discriminate.
  - intros [? _]. discriminate.
Qed.

Lemma ret_Ok {A} (a : A) w a' w' :
  ret (W:=W) a w = Ok (a', w') <-> a' = a /\ w' = w.
Proof. unfold ret. split; [intros [= -> ->] | intros [-> ->]]; auto. Qed.
End MonadFacts.

(** Peels the first [let*] off a successful computation. *)
Ltac bind_inv H a w1 Ha :=
  apply bind_Ok in H as (a & w1 & Ha & H).
Ltac lift_inv H a Ha :=
  let w1 := fresh "w" in
  let Hw := fresh "Hw" in
  apply bind_Ok in H as (a & w1 & Ha & H);
  apply lift_Ok in Ha as [Ha Hw]; subst w1.

(** ** Counters *)

Lemma sumZ_insert (l : list Z) (i : nat) (v v' : Z) :
  l !! i = Some v -> sumZ (<[i := v']> l) = sumZ l - v + v'.
Proof.
  revert i. induction l as [|h l IH]; intros [|i] Hi; simplify_eq/=.
  - lia.
  - rewrite (IH i Hi). lia.
Qed.

Lemma sumZ_replicate_0 (n : nat) : sumZ (replicate n 0) = 0.
Proof. induction n as [|n IH]; simpl; [reflexivity | exact IH]. Qed.

Lemma iadd_item_Ok (l l' : list Z) (i : nat) (d : Z) :
  iadd_item l i d = Ok l' <-> exists v, l !! i = Some v /\ l' = <[i := v + d]> l.
Proof.
  unfold iadd_item. split.
  - destruct (l !! i) as [v|]; [intros [= <-]; eauto | discriminate].
  - intros (v & -> & ->). reflexivity.
Qed.

Lemma getitem_Ok {A} (l : list A) (i : nat) (v : A) :
  getitem l i = Ok v <-> l !! i = Some v.
Proof.
  unfold getitem. destruct (l !! i); split; intros [= ->]; reflexivity.
Qed.

(** ** One turn *)

Section TurnFacts.
Context {R : Type} {num : Num R} {W : Type} {amb : Ambient W R}.
Implicit Types (b : @Bandit R W) (w : W).

(** What a turn that does not raise has done, step by step. *)
Lemma turn_Ok b w b' w' :
  turn b w = Ok (b', w') ->
  exists payoffs probs w1 w2 t p wa beliefs k o pe,
    let x := fst (random_random w2) in
    let w3 := snd (random_random w2) in
    let y := fst (random_random w3) in
    let w4 := snd (random_random w3) in
    let choice := bisect (accumulate probs) x in
    _turbulence_fxn b (_payoffs b) (_payoff_fxn b) (_turbulence b) w = Ok (payoffs, w1) /\
    _strategy_fxn b (_beliefs b) (_strategy b) w1 = Ok (probs, w2) /\
    _tries b !! choice = Some t /\
    payoffs !! choice = Some p /\
    outcome (ltb y p) (_wins b) choice (_assetstock b) = Ok wa /\
    _belief_fxn b (_beliefs b) (<[choice := t + 1]> (_tries b)) (fst wa) w4
      = Ok (beliefs, w') /\
    knowledge_metric (_arms b) beliefs payoffs = Ok k /\
    opinion_metric (_arms b) beliefs = Ok o /\
    probexplore_metric probs = Ok pe /\
    b' = {| _arms := _arms b;
            _turns := _turns b;
            _assetstock := snd wa;
            _complete := _complete b;
            _payoff_fxn := _payoff_fxn b;
            _payoffs := payoffs;
            _turbulence_fxn := _turbulence_fxn b;
            _turbulence := _turbulence b;
            _strategy_fxn := _strategy_fxn b;
            _strategy := _strategy b;
            _belief_fxn := _belief_fxn b;
            _tries := <[choice := t + 1]> (_tries b);
            _wins := fst wa;
            _beliefs := beliefs;
            _score := _score b ++ [snd wa];
            _knowledge := _knowledge b ++ [k];
            _opinion := _opinion b ++ [o];
            _probexplore := _probexplore b ++ [pe];
            _simtime := _simtime b |}.
Proof.
  unfold turn. intros H.
  bind_inv H payoffs w1 Hturb.
  bind_inv H probs w2 Hstrat.
  apply bind_Ok in H as (x & w3 & Hx & H).
  unfold random in Hx. injection Hx as Hx.
  lift_inv H tries Htries.
  apply iadd_item_Ok in Htries as (t & Ht & ->).
  apply bind_Ok in H as (y & w4 & Hy & H).
  unfold random in Hy. injection Hy as Hy.
  lift_inv H p Hp. apply getitem_Ok in Hp.
  lift_inv H wa Hwa.
  bind_inv H beliefs w5 Hbel.
  lift_inv H k Hk. lift_inv H o Ho. lift_inv H pe Hpe.
  apply ret_Ok in H as [-> ->].
  exists payoffs, probs, w1, w2, t, p, wa, beliefs, k, o, pe. cbn zeta.
  rewrite Hx in *. cbn [fst snd] in *. rewrite Hy in *. cbn [fst snd] in *.
  repeat split; assumption.
Qed.
End TurnFacts.

(** ** A run *)

Section RunFacts.
Context {R : Type} {num : Num R} {W : Type} {amb : Ambient W R}.
Implicit Types (b : @Bandit R W) (w : W).

Lemma outcome_Ok (won : bool) (wins : list Z) (choice : nat) (stock : Z) wa :
  outcome won wins choice stock = Ok wa ->
  (won = true /\ exists wn, wins !! choice = Some wn /\
                 wa = (<[choice := wn + 1]> wins, stock + 1)) \/
  (won = false /\ wa = (wins, stock - 1)).
Proof.
  unfold outcome. destruct won.
  - destruct (iadd_item wins choice 1) as [wins'|] eqn:Hw; [|discriminate].
    apply iadd_item_Ok in Hw as (wn & Hwn & ->). intros [= <-]. left. eauto.
  - intros [= <-]. right. auto.
Qed.

(** The effect of one turn on the counters, the stock and the histories. *)
Lemma turn_counters b w b' w' :
  turn b w = Ok (b', w') ->
  exists choice t,
    _tries b !! choice = Some t /\
    _tries b' = <[choice := t + 1]> (_tries b) /\
    ((exists wn, _wins b !! choice = Some wn /\
                 _wins b' = <[choice := wn + 1]> (_wins b) /\
                 _assetstock b' = _assetstock b + 1) \/
     (_wins b' = _wins b /\ _assetstock b' = _assetstock b - 1)) /\
    _score b' = _score b ++ [_assetstock b'] /\
    length (_knowledge b') = S (length (_knowledge b)) /\
    length (_opinion b') = S (length (_opinion b)) /\
    length (_probexplore b') = S (length (_probexplore b)) /\
    _arms b' = _arms b.
Proof.
  intros H. apply turn_Ok in H
    as (payoffs & probs & w1 & w2 & t & p & wa & beliefs & k & o & pe & H).
  cbn zeta in H.
  destruct H as (_ & _ & Ht & _ & Hout & _ & _ & _ & _ & ->). cbn.
  eexists _, t. split; [exact Ht|]. split; [reflexivity|].
  rewrite !length_app. cbn.
  repeat split; try lia.
  apply outcome_Ok in Hout as [(_ & wn & Hwn & ->) | (_ & ->)]; cbn; eauto.
Qed.

Lemma turn_consistent n b w b' w' :
  consistent n b -> turn b w = Ok (b', w') -> consistent (S n) b'.
Proof.
  intros [Hsum Hle Harms Hbal Hs Hk Ho Hp _] H.
  apply turn_counters in H
    as (c & t & Ht & Htries & Hwins & Hscore & Hk' & Ho' & Hp' & Ha).
  destruct (Forall2_lookup_l _ _ _ _ _ Hle Ht) as (wn & Hwn & Hbound).
  assert (Hsum' : sumZ (_tries b') = sumZ (_tries b) + 1).
  { rewrite Htries, (sumZ_insert _ _ _ _ Ht). lia. }
  split.
  - rewrite Hsum'. lia.
  - rewrite Htries. destruct Hwins as [(wn' & Hwn' & -> & _) | (-> & _)].
    + apply Forall2_insert; [exact Hle|].
      assert (wn' = wn) as -> by congruence. lia.
    + rewrite <- (list_insert_id _ _ _ Hwn).
      apply Forall2_insert; [exact Hle|]. lia.
  - rewrite Htries, length_insert, Ha. exact Harms.
  - rewrite Hsum'. destruct Hwins as [(wn' & Hwn' & -> & ->) | (-> & ->)].
    + rewrite (sumZ_insert _ _ _ _ Hwn'). lia.
    + lia.
  - rewrite Hscore, length_app. cbn. lia.
  - lia.
  - lia.
  - lia.
  - intros _. rewrite Hscore. apply last_snoc.
Qed.

Lemma constructed_consistent arms turns pf tf sf tb bf st (payoffs : list R) :
  consistent (W := W) 0 (constructed arms turns pf tf sf tb bf st payoffs).
Proof.
  split; cbn; try reflexivity.
  - apply sumZ_replicate_0.
  - apply Forall2_replicate. lia.
  - apply length_replicate.
  - rewrite !sumZ_replicate_0. reflexivity.
  - intros H. exfalso. apply H. reflexivity.
Qed.

Lemma init_Ok arms turns pf tf sf tb bf st w b w' :
  __init__ arms turns pf tf sf tb bf st w = Ok (b, w') <->
  exists payoffs, replicateM (Z.to_nat arms) pf w = Ok (payoffs, w') /\
                  b = constructed arms turns pf tf sf tb bf st payoffs.
Proof.
  unfold __init__. rewrite bind_Ok. split.
  - intros (payoffs & w1 & Hp & Hr). apply ret_Ok in Hr as [-> ->]. eauto.
  - intros (payoffs & Hp & ->). exists payoffs, w'. split; [exact Hp | reflexivity].
Qed.

Lemma init_consistent arms turns pf tf sf tb bf st w b w' :
  __init__ arms turns pf tf sf tb bf st w = Ok (b, w') -> consistent 0 b.
Proof.
  intros H. apply init_Ok in H as (payoffs & _ & ->).
  apply constructed_consistent.
Qed.

Lemma turns_loop_consistent m n b w b' w' :
  consistent n b -> turns_loop m b w = Ok (b', w') -> consistent (m + n) b'.
Proof.
  revert n b w. induction m as [|m IH]; intros n b w Hc H.
  - apply ret_Ok in H as [-> ->]. exact Hc.
  - cbn in H. bind_inv H b1 w1 H1.
    replace (S m + n)%nat with (m + S n)%nat by lia.
    eapply IH; [|exact H]. eapply turn_consistent; eauto.
Qed.

Lemma turns_loop_add n m b w :
  turns_loop (n + m) b w = bind (turns_loop n b) (turns_loop m) w.
Proof.
  revert b w. induction n as [|n IH]; intros b w; [reflexivity|].
  cbn [turns_loop Nat.add]. unfold bind in *.
  destruct (turn b w) as [[b1 w1]|e]; [apply IH | reflexivity].
Qed.

Lemma turns_loop_score_prefix m b w b' w' :
  turns_loop m b w = Ok (b', w') -> exists later, _score b' = _score b ++ later.
Proof.
  revert b w. induction m as [|m IH]; intros b w H.
  - apply ret_Ok in H as [-> ->]. exists []. symmetry. apply app_nil_r.
  - cbn in H. bind_inv H b1 w1 H1.
    apply turn_counters in H1 as (_ & _ & _ & _ & _ & Hs & _).
    destruct (IH _ _ H) as (later & ->). rewrite Hs, <- app_assoc. eauto.
Qed.

Lemma simulate_Ok b w b' w' :
  simulate b w = Ok (b', w') <->
  exists b1 w2,
    turns_loop (Z.to_nat (_turns b)) b (snd (datetime_now w)) = Ok (b1, w2) /\
    b' = finish b1 (fst (datetime_now w)) (fst (datetime_now w2)) /\
    w' = snd (datetime_now w2).
Proof.
  unfold simulate, now. rewrite bind_Ok. split.
  - intros (st & w1 & [= Hst] & H). bind_inv H b1 w2 Hloop.
    apply bind_Ok in H as (et & w3 & [= Het] & H).
    apply ret_Ok in H as [-> ->].
    exists b1, w2. rewrite Hst, Het. cbn. auto.
  - intros (b1 & w2 & Hloop & -> & ->).
    exists (fst (datetime_now w)), (snd (datetime_now w)).
    split; [destruct (datetime_now w); reflexivity|].
    apply bind_Ok. exists b1, w2. split; [exact Hloop|].
    apply bind_Ok. exists (fst (datetime_now w2)), (snd (datetime_now w2)).
    split; [destruct (datetime_now w2); reflexivity | reflexivity].
Qed.

Lemma finish_consistent n b st et : consistent n b -> consistent n (finish b st et).
Proof. intros [? ? ? ? ? ? ? ? ?]. split; assumption. Qed.

Lemma turns_loop_arms n b w b' w' :
  turns_loop n b w = Ok (b', w') -> _arms b' = _arms b.
Proof.
  revert b w. induction n as [|n IH]; intros b w H.
  - apply ret_Ok in H as [-> ->]. reflexivity.
  - cbn in H. bind_inv H b1 w1 H1. rewrite (IH _ _ H).
    apply turn_counters in H1 as (_ & _ & _ & _ & _ & _ & _ & _ & _ & Ha).
    exact Ha.
Qed.

(** The state after [n] turns of a freshly constructed object. *)
Lemma run_consistent arms turns pf tf sf tb bf st w0 b0 w1 n w b w' :
  __init__ arms turns pf tf sf tb bf st w0 = Ok (b0, w1) ->
  turns_loop n b0 w = Ok (b, w') ->
  consistent n b /\ _arms b = arms.
Proof.
  intros Hinit Hrun. split.
  - replace n with (n + 0)%nat by lia.
    eapply turns_loop_consistent; [|exact Hrun].
    eapply init_consistent; exact Hinit.
  - rewrite (turns_loop_arms _ _ _ _ _ Hrun).
    apply init_Ok in Hinit as (payoffs & _ & ->). reflexivity.
Qed.

(** The state [simulate] returns is the state after [turn_count] turns,
    marked complete. *)
Lemma simulate_consistent arms turns pf tf sf tb bf st w0 b0 w1 b w :
  __init__ arms turns pf tf sf tb bf st w0 = Ok (b0, w1) ->
  simulate b0 w1 = Ok (b, w) ->
  consistent (Z.to_nat turns) b /\ _complete b = true.
Proof.
  intros Hinit Hsim. apply simulate_Ok in Hsim as (b1 & w2 & Hrun & -> & _).
  assert (_turns b0 = turns) as Hturns.
  { apply init_Ok in Hinit as (payoffs & _ & ->). reflexivity. }
  rewrite Hturns in Hrun. split; [|reflexivity].
  apply finish_consistent.
  eapply run_consistent; [exact Hinit | exact Hrun].
Qed.

Lemma insert_add_lookup_mono (l : list Z) (c a : nat) (v d x : Z) :
  l !! c = Some v -> 0 <= d -> l !! a = Some x ->
  exists x', <[c := v + d]> l !! a = Some x' /\ x <= x'.
Proof.
  intros Hc Hd Ha. destruct (decide (c = a)) as [->|Hne].
  - exists (v + d). split.
    + apply list_lookup_insert_eq. eapply lookup_lt_Some; exact Ha.
    + assert (x = v) by congruence. lia.
  - exists x. split; [|lia]. rewrite list_lookup_insert_ne by exact Hne. exact Ha.
Qed.
End RunFacts.

(** ** The counters and histories of a run *)

Section RunClaims.
Context {R : Type} {num : Num R} {W : Type} {amb : Ambient W R}.
Implicit Types (b : @Bandit R W) (w : W).

(** C5. After [n] turns of a freshly constructed object the tries of all
    arms add up to [n]; after a complete run of [turn_count >= 0] turns they
    add up to [turn_count]. *)
Theorem sum_tries_is_turns_executed arms turns pf tf sf tb bf st w0 b0 w1 :
  __init__ arms turns pf tf sf tb bf st w0 = Ok (b0, w1) ->
  (forall n w b w', turns_loop n b0 w = Ok (b, w') ->
                    sumZ (_tries b) = Z.of_nat n) /\
  (forall b w, 0 <= turns -> simulate b0 w1 = Ok (b, w) ->
               sumZ (_tries b) = turns).
Proof.
  intros Hinit. split.
  - intros n w b w' Hrun.
    destruct (run_consistent _ _ _ _ _ _ _ _ _ _ _ _ _ _ _ Hinit Hrun) as [Hc _].
    apply (tries_total _ _ Hc).
  - intros b w Hturns Hsim.
    destruct (simulate_consistent _ _ _ _ _ _ _ _ _ _ _ _ _ Hinit Hsim) as [Hc _].
    rewrite (tries_total _ _ Hc). lia.
Qed.

(** C6. At every point of a run every arm has been tried at least as often
    as it has won, and neither counter of any arm decreases over a turn. *)
Theorem tries_bound_wins_and_grow arms turns pf tf sf tb bf st w0 b0 w1 :
  __init__ arms turns pf tf sf tb bf st w0 = Ok (b0, w1) ->
  forall n w b w', turns_loop n b0 w = Ok (b, w') ->
    (forall a, (a < Z.to_nat arms)%nat ->
       exists t wn, _tries b !! a = Some t /\ _wins b !! a = Some wn /\
                    0 <= wn <= t) /\
    (forall w2 b2 w3, turn b w2 = Ok (b2, w3) ->
       forall a, (a < Z.to_nat arms)%nat ->
         exists t wn t2 wn2,
           _tries b !! a = Some t /\ _wins b !! a = Some wn /\
           _tries b2 !! a = Some t2 /\ _wins b2 !! a = Some wn2 /\
           t <= t2 /\ wn <= wn2).
Proof.
  intros Hinit n w b w' Hrun.
  destruct (run_consistent _ _ _ _ _ _ _ _ _ _ _ _ _ _ _ Hinit Hrun) as [Hc Harms].
  assert (Hnow : forall a, (a < Z.to_nat arms)%nat ->
            exists t wn, _tries b !! a = Some t /\ _wins b !! a = Some wn /\
                         0 <= wn <= t).
  { intros a Ha. rewrite <- Harms, <- (arms_tracked _ _ Hc) in Ha.
    destruct (lookup_lt_is_Some_2 _ _ Ha) as [t Ht].
    destruct (Forall2_lookup_l _ _ _ _ _ (wins_le_tries _ _ Hc) Ht)
      as (wn & Hwn & Hb).
    eauto. }
  split; [exact Hnow|].
  intros w2 b2 w3 Hturn a Ha.
  destruct (Hnow a Ha) as (t & wn & Ht & Hwn & _).
  apply turn_counters in Hturn as (c & tc & Htc & -> & Hwins & _).
  destruct (insert_add_lookup_mono _ c a tc 1 t Htc ltac:(lia) Ht)
    as (t2 & Ht2 & Hle).
  destruct Hwins as [(wc & Hwc & -> & _) | (-> & _)].
  - destruct (insert_add_lookup_mono _ c a wc 1 wn Hwc ltac:(lia) Hwn)
      as (wn2 & Hwn2 & Hle2).
    exists t, wn, t2, wn2. auto 10.
  - exists t, wn, t2, wn. repeat split; auto; lia.
Qed.

(** C7. After [n] turns each of the four histories has [n] entries; after a
    complete run of [turn_count >= 0] turns each has [turn_count] entries. *)
Theorem histories_have_one_entry_per_turn arms turns pf tf sf tb bf st w0 b0 w1 :
  __init__ arms turns pf tf sf tb bf st w0 = Ok (b0, w1) ->
  (forall n w b w', turns_loop n b0 w = Ok (b, w') ->
     length (_score b) = n /\ length (_knowledge b) = n /\
     length (_opinion b) = n /\ length (_probexplore b) = n) /\
  (forall b w, 0 <= turns -> simulate b0 w1 = Ok (b, w) ->
     Z.of_nat (length (_score b)) = turns /\
     Z.of_nat (length (_knowledge b)) = turns /\
     Z.of_nat (length (_opinion b)) = turns /\
     Z.of_nat (length (_probexplore b)) = turns).
Proof.
  intros Hinit. split.
  - intros n w b w' Hrun.
    destruct (run_consistent _ _ _ _ _ _ _ _ _ _ _ _ _ _ _ Hinit Hrun) as [Hc _].
    destruct Hc. auto.
  - intros b w Hturns Hsim.
    destruct (simulate_consistent _ _ _ _ _ _ _ _ _ _ _ _ _ Hinit Hsim) as [Hc _].
    destruct Hc as [_ _ _ _ -> -> -> -> _]. lia.
Qed.

(** C8. A turn adds one to the tries of the chosen arm; a second draw below
    the chosen arm's payoff adds one to its wins and to the asset stock, any
    other draw takes one off the asset stock; the score recorded for the turn
    is the asset stock after that update. *)
Theorem turn_outcome_step b w b' w' :
  turn b w = Ok (b', w') ->
  exists payoffs probs w1 w2 t p,
    let x := fst (random_random w2) in
    let w3 := snd (random_random w2) in
    let y := fst (random_random w3) in
    let choice := bisect (accumulate probs) x in
    _turbulence_fxn b (_payoffs b) (_payoff_fxn b) (_turbulence b) w = Ok (payoffs, w1) /\
    _strategy_fxn b (_beliefs b) (_strategy b) w1 = Ok (probs, w2) /\
    _tries b !! choice = Some t /\
    _tries b' = <[choice := t + 1]> (_tries b) /\
    payoffs !! choice = Some p /\
    (if ltb y p
     then (exists wn, _wins b !! choice = Some wn /\
                      _wins b' = <[choice := wn + 1]> (_wins b)) /\
          _assetstock b' = _assetstock b + 1
     else _wins b' = _wins b /\ _assetstock b' = _assetstock b - 1) /\
    _score b' = _score b ++ [_assetstock b'].
Proof.
  intros H. apply turn_Ok in H
    as (payoffs & probs & w1 & w2 & t & p & wa & beliefs & k & o & pe & H).
  cbn zeta in H.
  destruct H as (Hturb & Hstrat & Ht & Hp & Hout & _ & _ & _ & _ & ->).
  exists payoffs, probs, w1, w2, t, p. cbn.
  repeat (split; [assumption || reflexivity|]).
  split; [|reflexivity].
  apply outcome_Ok in Hout as [(-> & wn & Hwn & ->) | (-> & ->)]; cbn; eauto.
Qed.

(** C9. At every point of a run the asset stock is twice the total wins less
    the total tries; so the score recorded for turn [t] is twice the total
    wins after that turn less [t + 1]. *)
Theorem stock_is_twice_wins_less_tries arms turns pf tf sf tb bf st w0 b0 w1 :
  __init__ arms turns pf tf sf tb bf st w0 = Ok (b0, w1) ->
  forall n w b w', turns_loop n b0 w = Ok (b, w') ->
    _assetstock b = 2 * sumZ (_wins b) - sumZ (_tries b) /\
    (forall t bt wt, (t < n)%nat -> turns_loop (S t) b0 w = Ok (bt, wt) ->
       _score b !! t = Some (2 * sumZ (_wins bt) - (Z.of_nat t + 1))).
Proof.
  intros Hinit n w b w' Hrun.
  destruct (run_consistent _ _ _ _ _ _ _ _ _ _ _ _ _ _ _ Hinit Hrun) as [Hc _].
  split; [apply (stock_balance _ _ Hc)|].
  intros t bt wt Hlt Hbt.
  destruct (run_consistent _ _ _ _ _ _ _ _ _ _ _ _ _ _ _ Hinit Hbt) as [Hct _].
  replace n with (S t + (n - S t))%nat in Hrun by lia.
  rewrite turns_loop_add in Hrun. unfold bind in Hrun. rewrite Hbt in Hrun.
  destruct (turns_loop_score_prefix _ _ _ _ _ Hrun) as (later & ->).
  pose proof (score_last _ _ Hct ltac:(lia)) as Hlast.
  rewrite last_lookup, (score_length _ _ Hct) in Hlast. cbn in Hlast.
  rewrite (lookup_app_l_Some _ _ _ _ Hlast).
  rewrite (stock_balance _ _ Hct), (tries_total _ _ Hct). f_equal. lia.
Qed.
End RunClaims.

(** ** The arm selection *)

Section BisectFacts.
Context {R : Type} {num : Num R}.

Lemma midpoint_bounds (lo hi : nat) :
  (lo < hi)%nat -> (lo <= (lo + hi) / 2 < hi)%nat.
Proof.
  intros H. pose proof (Nat.div_mod_eq (lo + hi) 2).
  pose proof (Nat.mod_upper_bound (lo + hi) 2). lia.
Qed.

(** The loop returns an index of the window it was started on. *)
Lemma bisect_loop_range (a : list R) (x : R) (lo hi : nat) :
  (lo <= hi)%nat -> (lo <= bisect_loop a x lo hi <= hi)%nat.
Proof.
  funelim (bisect_loop a x lo hi); intros Hle.
  - lia.
  - pose proof (midpoint_bounds lo hi l). lia.
  - pose proof (midpoint_bounds lo hi l). lia.
Qed.

(** The upper end moves only onto an entry that exceeds [x]. *)
Lemma bisect_loop_right (a : list R) (x : R) (lo hi : nat) :
  (lo <= hi)%nat ->
  bisect_loop a x lo hi = hi \/
  ltb x (nth (bisect_loop a x lo hi) a zero) = true.
Proof.
  funelim (bisect_loop a x lo hi); intros Hle.
  - left. lia.
  - pose proof (midpoint_bounds lo hi l) as Hm.
    destruct H as [-> | Hx]; [lia | right; assumption | right; exact Hx].
  - pose proof (midpoint_bounds lo hi l) as Hm.
    destruct H as [He | Hx]; [lia | left; exact He | right; exact Hx].
Qed.

(** The lower end moves only past an entry that does not exceed [x]. *)
Lemma bisect_loop_left (a : list R) (x : R) (lo hi : nat) :
  (lo <= hi)%nat ->
  bisect_loop a x lo hi = lo \/
  ((0 < bisect_loop a x lo hi)%nat /\
   ltb x (nth (bisect_loop a x lo hi - 1) a zero) = false).
Proof.
  funelim (bisect_loop a x lo hi); intros Hle.
  - left. reflexivity.
  - pose proof (midpoint_bounds lo hi l) as Hm.
    destruct H as [He | Hx]; [lia | left; exact He | right; exact Hx].
  - pose proof (midpoint_bounds lo hi l) as Hm.
    destruct H as [He | Hx]; [lia | | right; exact Hx].
    right. rewrite He. split; [lia|].
    replace (S ((lo + hi) / 2) - 1)%nat with ((lo + hi) / 2)%nat by lia.
    assumption.
Qed.

(** The draw lies in the interval of the selected arm: it is below the
    selected cumulative value and not below the one before it. *)
Lemma bisect_interval (a : list R) (x : R) :
  (bisect a x <= length a)%nat /\
  (forall v, a !! bisect a x = Some v -> ltb x v = true) /\
  (forall i v, bisect a x = S i -> a !! i = Some v -> ltb x v = false).
Proof.
  unfold bisect.
  pose proof (bisect_loop_range a x 0 (length a) ltac:(lia)) as Hr.
  split; [lia|]. split.
  - intros v Hv.
    destruct (bisect_loop_right a x 0 (length a) ltac:(lia)) as [He | Hx].
    + apply lookup_lt_Some in Hv. lia.
    + rewrite (nth_lookup_Some _ _ _ _ Hv) in Hx. exact Hx.
  - intros i v Hi Hv.
    destruct (bisect_loop_left a x 0 (length a) ltac:(lia)) as [He | [_ Hge]].
    + lia.
    + rewrite Hi in Hge. replace (S i - 1)%nat with i in Hge by lia.
      rewrite (nth_lookup_Some _ _ _ _ Hv) in Hge. exact Hge.
Qed.

(** An index in range is selected as soon as the last cumulative value
    exceeds the draw, whatever the other values are. *)
Lemma bisect_lt_length (a : list R) (x v : R) :
  last a = Some v -> ltb x v = true -> (bisect a x < length a)%nat.
Proof.
  intros Hlast Hx.
  destruct (bisect_interval a x) as (Hle & _ & Hprev).
  destruct (decide (bisect a x = length a)) as [He|]; [|lia].
  exfalso. rewrite last_lookup in Hlast.
  destruct (length a) as [|n] eqn:Hlen.
  - apply length_zero_iff_nil in Hlen. subst a. discriminate.
  - cbn in Hlast. rewrite (Hprev n v He Hlast) in Hx. discriminate.
Qed.

Lemma accumulate_from_length (total : R) (l : list R) :
  length (accumulate_from total l) = length l.
Proof.
  revert total. induction l as [|p l IH]; intros total; cbn; [reflexivity|].
  rewrite IH. reflexivity.
Qed.

Lemma accumulate_length (l : list R) : length (accumulate l) = length l.
Proof. destruct l; cbn; [reflexivity|]. rewrite accumulate_from_length. reflexivity. Qed.

(** The last running sum is the left-to-right sum of the whole list. *)
Lemma accumulate_from_last (total : R) (l : list R) :
  last (total :: accumulate_from total l) = Some (fold_left add l total).
Proof.
  revert total. induction l as [|p l IH]; intros total; [reflexivity|].
  cbn [accumulate_from fold_left]. rewrite <- IH. reflexivity.
Qed.
End BisectFacts.

(** ** The arm selection in exact arithmetic *)

Lemma Qltb_true (x y : Q) : Qltb x y = true <-> (x < y)%Q.
Proof.
  unfold Qltb. rewrite negb_true_iff, <- not_true_iff_false, Qle_bool_iff.
  split; [apply Qnot_le_lt | apply Qlt_not_le].
Qed.

Lemma Qltb_false (x y : Q) : Qltb x y = false <-> (y <= x)%Q.
Proof. unfold Qltb. rewrite negb_false_iff. apply Qle_bool_iff. Qed.

Lemma fold_left_Qplus_compat (l : list Q) (s s' : Q) :
  (s == s')%Q -> (fold_left Qplus l s == fold_left Qplus l s')%Q.
Proof.
  revert s s'. induction l as [|p l IH]; intros s s' Hs; cbn; [exact Hs|].
  apply IH. rewrite Hs. reflexivity.
Qed.

(** Running sums of non-negative values never fall below where they start. *)
Lemma accumulate_from_ge (total : Q) (l : list Q) :
  Forall (fun p => 0 <= p)%Q l ->
  forall j v, accumulate_from total l !! j = Some v -> (total <= v)%Q.
Proof.
  intros Hl. revert total. induction Hl as [|p l Hp Hl IH]; intros total j v Hv.
  - destruct j; discriminate.
  - assert (total <= total + p)%Q as Hstep.
    { rewrite <- (Qplus_0_r total) at 1. apply Qplus_le_r. exact Hp. }
    destruct j as [|j]; cbn in Hv.
    + injection Hv as <-. exact Hstep.
    + eapply Qle_trans; [exact Hstep | exact (IH _ _ _ Hv)].
Qed.

Lemma accumulate_from_sorted (total : Q) (l : list Q) :
  Forall (fun p => 0 <= p)%Q l ->
  forall i j vi vj, (i <= j)%nat ->
    (total :: accumulate_from total l) !! i = Some vi ->
    (total :: accumulate_from total l) !! j = Some vj -> (vi <= vj)%Q.
Proof.
  intros Hl. revert total. induction Hl as [|p l Hp Hl IH]; intros total i j vi vj Hij Hi Hj.
  - destruct i as [|[|i]], j as [|[|j]]; try discriminate.
    injection Hi as <-. injection Hj as <-. apply Qle_refl.
  - destruct i as [|i].
    + injection Hi as <-. destruct j as [|j].
      * injection Hj as <-. apply Qle_refl.
      * cbn in Hj. eapply (accumulate_from_ge total (p :: l)); [|exact Hj].
        constructor; assumption.
    + destruct j as [|j]; [lia|]. cbn in Hi, Hj.
      apply (IH (total + p)%Q i j); [lia | exact Hi | exact Hj].
Qed.

(** The cumulative distribution of non-negative probabilities is sorted. *)
Lemma accumulate_sorted (probs : list Q) :
  Forall (fun p => 0 <= p)%Q probs ->
  forall i j vi vj, (i <= j)%nat ->
    accumulate probs !! i = Some vi -> accumulate probs !! j = Some vj ->
    (vi <= vj)%Q.
Proof.
  intros Hl. destruct Hl as [|p l Hp Hl]; intros i j vi vj Hij Hi Hj.
  - destruct i; discriminate.
  - cbn [accumulate] in Hi, Hj.
    exact (accumulate_from_sorted p l Hl i j vi vj Hij Hi Hj).
Qed.

(** The last cumulative value is Python's [sum] of the probabilities. *)
Lemma accumulate_last_pysum (probs : list Q) :
  probs <> [] -> exists v, last (accumulate probs) = Some v /\ (v == pysum probs)%Q.
Proof.
  destruct probs as [|p l]; [congruence|]. intros _.
  exists (fold_left Qplus l p). split.
  - exact (accumulate_from_last p l).
  - unfold pysum. cbn. apply fold_left_Qplus_compat. rewrite Qplus_0_l. reflexivity.
Qed.

(** C1, counterexample. With choice probabilities [0.5, 0.5] and the draw
    exactly 0.5, the first arm whose cumulative probability meets or exceeds
    the draw is arm 0, but the arm selected is arm 1. *)
Lemma boundary_draw_selects_arm_1 :
  first_meeting_or_exceeding (accumulate [(1 # 2)%Q; (1 # 2)%Q]) (1 # 2)%Q = 0%nat /\
  bisect (accumulate [(1 # 2)%Q; (1 # 2)%Q]) (1 # 2)%Q = 1%nat /\
  bisect (accumulate [(1 # 2)%Q; (1 # 2)%Q]) (1 # 2)%Q <> 0%nat.
Proof. repeat split. vm_compute. discriminate. Qed.

(** C1, amended. For non-negative choice probabilities the arm selected is
    the first one whose cumulative probability strictly exceeds the draw:
    every earlier cumulative value is at most the draw, and the selected one,
    when there is one, is above it.  With probabilities [0.5, 0.5] and the
    draw exactly 0.5 this is arm 1. *)
Theorem selection_is_first_strictly_above (probs : list Q) (x : Q) :
  Forall (fun p => 0 <= p)%Q probs ->
  (forall i c, (i < bisect (accumulate probs) x)%nat ->
     accumulate probs !! i = Some c -> (c <= x)%Q) /\
  (forall c, accumulate probs !! bisect (accumulate probs) x = Some c -> (x < c)%Q) /\
  (bisect (accumulate probs) x <= length probs)%nat /\
  bisect (accumulate [(1 # 2)%Q; (1 # 2)%Q]) (1 # 2)%Q = 1%nat.
Proof.
  intros Hpos.
  destruct (bisect_interval (accumulate probs) x) as (Hle & Hat & Hprev).
  repeat split.
  - intros i c Hi Hc.
    destruct (bisect (accumulate probs) x) as [|k] eqn:Hk; [lia|].
    destruct (lookup_lt_is_Some_2 (accumulate probs) k ltac:(lia)) as [ck Hck].
    pose proof (Hprev k ck eq_refl Hck) as Hx. apply Qltb_false in Hx.
    eapply Qle_trans; [|exact Hx].
    apply (accumulate_sorted probs Hpos i k); [lia | exact Hc | exact Hck].
  - intros c Hc. apply Qltb_true. exact (Hat c Hc).
  - rewrite <- accumulate_length. exact Hle.
Qed.

(** A draw below 1 selects an index in range when the probabilities add up
    to 1. *)
Lemma selection_lt_length (probs : list Q) (x : Q) :
  (pysum probs == 1)%Q -> (x < 1)%Q ->
  (bisect (accumulate probs) x < length probs)%nat.
Proof.
  intros Hsum Hx.
  assert (probs <> []) as Hne.
  { intros ->. vm_compute in Hsum. discriminate. }
  destruct (accumulate_last_pysum probs Hne) as (v & Hlast & Hv).
  rewrite <- accumulate_length.
  apply (bisect_lt_length _ x v Hlast).
  apply Qltb_true. rewrite Hv, Hsum. exact Hx.
Qed.

(** In exact arithmetic only: when the choice probabilities, one per arm,
    add up to exactly 1, every draw below 1 selects an arm index in range,
    so the reads of [tries], [wins] and [payoffs] at that index all succeed.
    (Neither the sign of the probabilities nor the lower bound of the draw
    is needed.)  The running sums of binary64 numbers are rounded, and there
    this fails: see [rounded_running_sums_select_past_last_arm]. *)
Theorem selected_arm_is_in_range (arms : nat) (probs : list Q) (x : Q)
    (tries wins : list Z) (payoffs : list Q) :
  length probs = arms -> length tries = arms -> length wins = arms ->
  length payoffs = arms ->
  (pysum probs == 1)%Q -> (x < 1)%Q ->
  (bisect (accumulate probs) x < arms)%nat /\
  exists t wn p,
    tries !! bisect (accumulate probs) x = Some t /\
    wins !! bisect (accumulate probs) x = Some wn /\
    payoffs !! bisect (accumulate probs) x = Some p.
Proof.
  intros Hprobs Htries Hwins Hpay Hsum Hx.
  assert (bisect (accumulate probs) x < arms)%nat as Hrange.
  { rewrite <- Hprobs. exact (selection_lt_length probs x Hsum Hx). }
  split; [exact Hrange|].
  destruct (lookup_lt_is_Some_2 tries (bisect (accumulate probs) x)) as [t Ht];
    [rewrite Htries; exact Hrange|].
  destruct (lookup_lt_is_Some_2 wins (bisect (accumulate probs) x)) as [wn Hwn];
    [rewrite Hwins; exact Hrange|].
  destruct (lookup_lt_is_Some_2 payoffs (bisect (accumulate probs) x)) as [p Hp];
    [rewrite Hpay; exact Hrange|].
  exists t, wn, p. repeat split; assumption.
Qed.

(** ** Construction *)

Section ConstructionClaims.
Context {R : Type} {num : Num R} {W : Type} {amb : Ambient W R}.

Lemma init_Raise arms turns pf tf sf tb bf st (w : W) e :
  __init__ (R := R) arms turns pf tf sf tb bf st w = Raise e <->
  replicateM (Z.to_nat arms) pf w = Raise e.
Proof.
  unfold __init__. rewrite bind_Raise. split.
  - intros [H | (payoffs & w1 & _ & H)]; [exact H | discriminate].
  - auto.
Qed.

(** C2, amended. The constructor checks neither count: it raises only what
    the payoff generator raises, it stores [arm_count] and [turn_count] as
    given, and for [arm_count <= 0] it always returns an object, one with no
    arms (empty payoffs, tries, wins and beliefs). *)
Theorem construction_checks_no_count arms turns pf tf sf tb bf st (w : W) :
  (forall e, __init__ (R := R) arms turns pf tf sf tb bf st w = Raise e <->
             replicateM (Z.to_nat arms) pf w = Raise e) /\
  (forall b w', __init__ (R := R) arms turns pf tf sf tb bf st w = Ok (b, w') ->
                _arms b = arms /\ _turns b = turns) /\
  (arms <= 0 ->
   exists b, __init__ (R := R) arms turns pf tf sf tb bf st w = Ok (b, w) /\
             _payoffs b = [] /\ _tries b = [] /\ _wins b = [] /\ _beliefs b = []).
Proof.
  split; [intros e; apply init_Raise|]. split.
  - intros b w' H. apply init_Ok in H as (payoffs & _ & ->). split; reflexivity.
  - intros Harms.
    exists (constructed arms turns pf tf sf tb bf st []).
    unfold __init__, constructed.
    replace (Z.to_nat arms) with O by lia. repeat split; reflexivity.
Qed.
End ConstructionClaims.

(** C2, counterexample. Construction with no arms, with a negative number of
    turns, or with both, returns an object instead of failing. *)
Lemma construction_accepts_bad_counts :
  scenario 0 5 scenario_world = Ok (scenario_bandit 0 5 [], scenario_world) /\
  scenario 2 (-1) scenario_world
    = Ok (scenario_bandit 2 (-1) [(9 # 10)%Q; (1 # 10)%Q], scenario_world_constructed) /\
  scenario (-3) (-1) scenario_world = Ok (scenario_bandit (-3) (-1) [], scenario_world).
Proof. repeat split. Qed.

Lemma construction_checks_no_count_witness :
  (-3 <= 0) /\
  exists b, scenario (-3) (-1) scenario_world = Ok (b, scenario_world) /\
            _arms b = -3 /\ _turns b = -1 /\
            _payoffs b = [] /\ _tries b = [] /\ _wins b = [] /\ _beliefs b = [].
Proof.
  split; [lia|].
  destruct (construction_checks_no_count (-3) (-1) scripted_payoff no_turbulence
              uniform_strategy 0%Q simplebelief (1 # 2)%Q scenario_world)
    as (_ & Hstored & Hempty).
  destruct (Hempty ltac:(lia)) as (b & Hinit & Hp & Ht & Hw & Hb).
  destruct (Hstored b scenario_world Hinit) as [Harms Hturns].
  exists b. repeat split; assumption.
Defined.

(** ** The metric accessors *)

Section AccessorClaims.
Context {R : Type} {num : Num R} {W : Type} {amb : Ambient W R}.
Implicit Types (b : @Bandit R W) (w : W).

Lemma final_metric_last {A} (history : list A) (v : A) :
  last history = Some v -> final_metric true history = Ok (Some v).
Proof. intros H. unfold final_metric, getitem_last. rewrite H. reflexivity. Qed.

(** C3. A run of zero turns completes with the four histories empty, and on
    the completed object every accessor raises [IndexError]: none of them
    returns [None]. *)
Theorem zero_turn_run_accessors_raise arms pf tf sf tb bf st w0 b0 w1 :
  __init__ arms 0 pf tf sf tb bf st w0 = Ok (b0, w1) ->
  exists b w,
    simulate b0 w1 = Ok (b, w) /\
    _score b = [] /\ _knowledge b = [] /\ _opinion b = [] /\ _probexplore b = [] /\
    _complete b = true /\
    fst (score b) = Raise IndexError /\
    fst (knowledge b) = Raise IndexError /\
    fst (opinion b) = Raise IndexError /\
    fst (probexplore b) = Raise IndexError.
Proof.
  intros Hinit. apply init_Ok in Hinit as (payoffs & _ & ->).
  eexists _, _. split.
  - apply simulate_Ok. eexists _, _. split; [reflexivity|]. split; reflexivity.
  - repeat split.
Qed.

(** C4. Each accessor returns [None] while the run is not complete, returns
    the last entry of its history once it is, and hands the object back as it
    was. *)
Theorem accessors_read_last_entry b :
  (_complete b = false ->
     score b = (Ok None, b) /\ knowledge b = (Ok None, b) /\
     opinion b = (Ok None, b) /\ probexplore b = (Ok None, b)) /\
  (_complete b = true ->
     (forall v, last (_score b) = Some v -> score b = (Ok (Some v), b)) /\
     (forall v, last (_knowledge b) = Some v -> knowledge b = (Ok (Some v), b)) /\
     (forall v, last (_opinion b) = Some v -> opinion b = (Ok (Some v), b)) /\
     (forall v, last (_probexplore b) = Some v -> probexplore b = (Ok (Some v), b))) /\
  (snd (score b) = b /\ snd (knowledge b) = b /\
   snd (opinion b) = b /\ snd (probexplore b) = b).
Proof.
  unfold score, knowledge, opinion, probexplore. split; [|split].
  - intros ->. repeat split.
  - intros ->. repeat split; intros v Hv; rewrite (final_metric_last _ _ Hv);
      reflexivity.
  - repeat split.
Qed.

(** After a complete run of at least one turn every history has a last
    entry, so every accessor returns a value; the final score is the asset
    stock. *)
Lemma completed_run_has_final_metrics arms turns pf tf sf tb bf st w0 b0 w1 b w :
  0 < turns ->
  __init__ arms turns pf tf sf tb bf st w0 = Ok (b0, w1) ->
  simulate b0 w1 = Ok (b, w) ->
  score b = (Ok (Some (_assetstock b)), b) /\
  (exists k, last (_knowledge b) = Some k /\ knowledge b = (Ok (Some k), b)) /\
  (exists o, last (_opinion b) = Some o /\ opinion b = (Ok (Some o), b)) /\
  (exists pe, last (_probexplore b) = Some pe /\ probexplore b = (Ok (Some pe), b)).
Proof.
  intros Hturns Hinit Hsim.
  destruct (simulate_consistent _ _ _ _ _ _ _ _ _ _ _ _ _ Hinit Hsim) as [Hc Hdone].
  assert (forall A (h : list A), length h = Z.to_nat turns -> exists v, last h = Some v)
    as Hlast.
  { intros A h Hlen. rewrite last_lookup.
    apply lookup_lt_is_Some_2. rewrite Hlen. lia. }
  unfold score, knowledge, opinion, probexplore. rewrite Hdone.
  split; [|split; [|split]].
  - rewrite (final_metric_last _ _ (score_last _ _ Hc ltac:(lia))). reflexivity.
  - destruct (Hlast _ _ (knowledge_length _ _ Hc)) as [k Hk].
    exists k. rewrite (final_metric_last _ _ Hk). auto.
  - destruct (Hlast _ _ (opinion_length _ _ Hc)) as [o Ho].
    exists o. rewrite (final_metric_last _ _ Ho). auto.
  - destruct (Hlast _ _ (probexplore_length _ _ Hc)) as [pe Hpe].
    exists pe. rewrite (final_metric_last _ _ Hpe). auto.
Qed.
End AccessorClaims.

(** ** Runs with well-behaved policy functions complete *)

Lemma map_result_total {A B} (f : A -> result B) (l : list A) :
  (forall a, a ∈ l -> exists v, f a = Ok v) -> exists vs, map_result f l = Ok vs.
Proof.
  induction l as [|a l IH]; intros Hf; [exists []; reflexivity|].
  destruct (Hf a ltac:(left)) as [v Hv].
  destruct IH as [vs Hvs]; [intros a' Ha'; apply Hf; right; exact Ha'|].
  exists (v :: vs). cbn. rewrite Hv, Hvs. reflexivity.
Qed.

Lemma knowledge_metric_total (arms : Z) (beliefs payoffs : list Q) :
  length beliefs = Z.to_nat arms -> length payoffs = Z.to_nat arms ->
  exists k, knowledge_metric arms beliefs payoffs = Ok k.
Proof.
  intros Hb Hp. unfold knowledge_metric.
  match goal with
  | |- context [map_result ?f ?l] => destruct (map_result_total f l) as [sq ->]
  end; [|eauto].
  intros i Hi. apply elem_of_seq in Hi.
  destruct (lookup_lt_is_Some_2 beliefs i ltac:(lia)) as [bi Hbi].
  destruct (lookup_lt_is_Some_2 payoffs i ltac:(lia)) as [pi Hpi].
  unfold getitem. rewrite Hbi, Hpi. cbn. eauto.
Qed.

Lemma opinion_metric_total (arms : Z) (beliefs : list Q) :
  length beliefs = Z.to_nat arms -> exists o, opinion_metric arms beliefs = Ok o.
Proof.
  intros Hb. unfold opinion_metric.
  match goal with
  | |- context [map_result ?f ?l] => destruct (map_result_total f l) as [sq ->]
  end; [|eauto].
  intros i Hi. apply elem_of_seq in Hi.
  destruct (lookup_lt_is_Some_2 beliefs i ltac:(lia)) as [bi Hbi].
  unfold getitem. rewrite Hbi. cbn.
  destruct (Z.eqb_spec arms 0) as [->|_]; [cbn in Hi; lia|]. cbn. eauto.
Qed.

Lemma probexplore_metric_total (probs : list Q) :
  probs <> [] -> exists pe, probexplore_metric probs = Ok pe.
Proof. destruct probs; [congruence|]. intros _. cbn. eauto. Qed.

Section Completion.
Context {W : Type} {amb : Ambient W Q} (good : W -> Prop).
Implicit Types (b : @Bandit Q W) (w : W).

(** A turn on a well-formed object with well-behaved policy functions does
    not raise, and leaves the object well-formed. *)
Lemma turn_completes b w :
  well_behaved good b -> per_arm b -> good w ->
  exists b' w', turn b w = Ok (b', w') /\ well_behaved good b' /\ per_arm b' /\ good w'.
Proof.
  intros Hwb (Hpay & Htries & Hwins & Hbel) Hw.
  pose proof Hwb as (Hdraw & _ & Hturb & Hstrat & Hbelief).
  destruct (Hturb _ w Hw Hpay) as (payoffs & w1 & Et & Hw1 & Hlp).
  destruct (Hstrat _ w1 Hw1 Hbel) as (probs & w2 & Es & Hw2 & Hlprobs & Hsum).
  destruct (Hdraw w2 Hw2) as [Hx Hw3].
  set (x := fst (random_random w2)) in *. set (w3 := snd (random_random w2)) in *.
  destruct (Hdraw w3 Hw3) as [_ Hw4].
  set (y := fst (random_random w3)) in *. set (w4 := snd (random_random w3)) in *.
  pose proof (selection_lt_length probs x Hsum Hx) as Hrange.
  set (choice := bisect (accumulate probs) x) in *.
  destruct (lookup_lt_is_Some_2 (_tries b) choice ltac:(lia)) as [t Ht].
  destruct (lookup_lt_is_Some_2 (_wins b) choice ltac:(lia)) as [wn Hwn].
  destruct (lookup_lt_is_Some_2 payoffs choice ltac:(lia)) as [p Hp].
  assert (exists wa, outcome (ltb y p) (_wins b) choice (_assetstock b) = Ok wa /\
                     length (fst wa) = Z.to_nat (_arms b)) as (wa & Eo & Hlw).
  { unfold outcome, iadd_item. rewrite Hwn. destruct (ltb y p).
    - eexists. split; [reflexivity|]. cbn. rewrite length_insert. exact Hwins.
    - eexists. split; [reflexivity|]. exact Hwins. }
  destruct (Hbelief (_beliefs b) (<[choice := t + 1]> (_tries b)) (fst wa) w4)
    as (beliefs & w5 & Eb & Hw5 & Hlb);
    [exact Hw4 | exact Hbel | rewrite length_insert; exact Htries | exact Hlw |].
  destruct (knowledge_metric_total (_arms b) beliefs payoffs Hlb Hlp) as [k Ek].
  destruct (opinion_metric_total (_arms b) beliefs Hlb) as [o Eo'].
  destruct (probexplore_metric_total probs) as [pe Epe].
  { intros ->. vm_compute in Hsum. discriminate. }
  eexists _, w5. split; [|split; [|split]].
  - unfold turn. apply bind_Ok. exists payoffs, w1. split; [exact Et|].
    apply bind_Ok. exists probs, w2. split; [exact Es|].
    apply bind_Ok. exists x, w3.
    split; [unfold random, x, w3; destruct (random_random w2); reflexivity|].
    apply bind_Ok. eexists _, w3. split.
    { apply lift_Ok. split; [|reflexivity]. apply iadd_item_Ok. eauto. }
    apply bind_Ok. exists y, w4.
    split; [unfold random, y, w4; destruct (random_random w3); reflexivity|].
    apply bind_Ok. exists p, w4.
    split; [apply lift_Ok; split; [apply getitem_Ok; exact Hp | reflexivity]|].
    apply bind_Ok. exists wa, w4.
    split; [apply lift_Ok; split; [exact Eo | reflexivity]|].
    apply bind_Ok. exists beliefs, w5. split; [exact Eb|].
    apply bind_Ok. exists k, w5.
    split; [apply lift_Ok; split; [exact Ek | reflexivity]|].
    apply bind_Ok. exists o, w5.
    split; [apply lift_Ok; split; [exact Eo' | reflexivity]|].
    apply bind_Ok. exists pe, w5.
    split; [apply lift_Ok; split; [exact Epe | reflexivity]|].
    reflexivity.
  - exact Hwb.
  - unfold per_arm. cbn. rewrite length_insert. auto.
  - exact Hw5.
Qed.

(** Any number of turns completes. *)
Lemma turns_loop_completes n b w :
  well_behaved good b -> per_arm b -> good w ->
  exists b' w', turns_loop n b w = Ok (b', w') /\ well_behaved good b' /\
                per_arm b' /\ good w'.
Proof.
  revert b w. induction n as [|n IH]; intros b w Hwb Hpa Hw.
  - exists b, w. auto.
  - destruct (turn_completes b w Hwb Hpa Hw) as (b1 & w1 & H1 & Hwb1 & Hpa1 & Hw1).
    destruct (IH b1 w1 Hwb1 Hpa1 Hw1) as (b' & w' & Hn & Hwb' & Hpa' & Hw').
    exists b', w'. split; [|auto].
    cbn. apply bind_Ok. exists b1, w1. auto.
Qed.

(** [simulate] returns: a run with well-behaved policy functions raises
    nothing and ends marked complete. *)
Lemma simulate_completes b w :
  well_behaved good b -> per_arm b -> good w ->
  exists b' w', simulate b w = Ok (b', w') /\ _complete b' = true.
Proof.
  intros Hwb Hpa Hw.
  pose proof Hwb as (_ & Hnow & _).
  destruct (turns_loop_completes (Z.to_nat (_turns b)) b (snd (datetime_now w))
              Hwb Hpa (Hnow w Hw)) as (b1 & w2 & Hloop & _).
  eexists _, _. split.
  - apply simulate_Ok. exists b1, w2. split; [exact Hloop|]. split; reflexivity.
  - reflexivity.
Qed.
End Completion.

(** The policy functions of the scenario are well-behaved on two arms, so
    its runs complete whatever the number of turns and the scripted draws
    below 1. *)
Lemma scenario_well_behaved (turns : Z) (payoffs : list Q) :
  well_behaved draws_below_1 (scenario_bandit 2 turns payoffs).
Proof.
  unfold well_behaved, draws_below_1. cbn. split; [|split; [|split; [|split]]].
  - intros w Hw. destruct (draws w) as [|d rest] eqn:E; cbn.
    + rewrite E. split; [reflexivity | constructor].
    + split; [exact (Forall_inv Hw) | exact (Forall_inv_tail Hw)].
  - intros w Hw. exact Hw.
  - intros ps w Hw Hlen. exists ps, w. auto.
  - intros beliefs w Hw Hlen.
    destruct beliefs as [|b1 [|b2 [|b3 rest]]]; try discriminate.
    eexists _, w. split; [reflexivity|]. split; [exact Hw|].
    split; reflexivity.
  - intros beliefs tries wins w Hw _ Ht Hwn.
    destruct tries as [|t1 [|t2 [|t3 tries]]]; try discriminate.
    destruct wins as [|v1 [|v2 [|v3 wins]]]; try discriminate.
    eexists _, w. split; [reflexivity|]. split; [exact Hw | reflexivity].
Qed.

Lemma scenario_run_completes (turns : Z) (w : Script) :
  draws_below_1 w ->
  exists b' w', simulate (scenario_bandit 2 turns [(9 # 10)%Q; (1 # 10)%Q]) w
                  = Ok (b', w') /\ _complete b' = true.
Proof.
  intros Hw. apply (simulate_completes draws_below_1).
  - apply scenario_well_behaved.
  - repeat split.
  - exact Hw.
Qed.

(** ** The properties on the scenario of the specification *)

(** Settles the first conjunct of the goal by evaluation and keeps it as [H]. *)
Ltac first_by_evaluation H :=
  lazymatch goal with
  | |- ?P /\ _ => assert (H : P) by (vm_compute; reflexivity); split; [exact H|]
  end.

Lemma scenario_constructed (arms turns : Z) :
  arms = 2 ->
  __init__ arms turns scripted_payoff no_turbulence uniform_strategy 0%Q
           simplebelief (1 # 2)%Q scenario_world
  = Ok (scenario_bandit arms turns [(9 # 10)%Q; (1 # 10)%Q], scenario_world_constructed).
Proof. intros ->. reflexivity. Defined.

Lemma selection_is_first_strictly_above_witness :
  Forall (fun p => 0 <= p)%Q [(1 # 4)%Q; (3 # 4)%Q] /\
  (forall c, accumulate [(1 # 4)%Q; (3 # 4)%Q]
               !! bisect (accumulate [(1 # 4)%Q; (3 # 4)%Q]) (1 # 4)%Q = Some c ->
             ((1 # 4) < c)%Q).
Proof.
  assert (Forall (fun p => 0 <= p)%Q [(1 # 4)%Q; (3 # 4)%Q]) as Hpos.
  { repeat constructor; unfold Qle; simpl; lia. }
  split; [exact Hpos|].
  exact (proj1 (proj2 (selection_is_first_strictly_above _ (1 # 4)%Q Hpos))).
Defined.

Lemma selected_arm_is_in_range_witness :
  (pysum [(1 # 2)%Q; (1 # 2)%Q] == 1)%Q /\ ((1 # 2) < 1)%Q /\
  (bisect (accumulate [(1 # 2)%Q; (1 # 2)%Q]) (1 # 2)%Q < 2)%nat.
Proof.
  assert (pysum [(1 # 2)%Q; (1 # 2)%Q] == 1)%Q as Hsum by reflexivity.
  assert ((1 # 2) < 1)%Q as Hx by reflexivity.
  split; [exact Hsum|]. split; [exact Hx|].
  exact (proj1 (selected_arm_is_in_range 2 [(1 # 2)%Q; (1 # 2)%Q] (1 # 2)%Q
                  [0; 0] [0; 0] [(9 # 10)%Q; (1 # 10)%Q]
                  eq_refl eq_refl eq_refl eq_refl Hsum Hx)).
Defined.

Lemma sum_tries_is_turns_executed_witness :
  exists b w b' w',
    turns_loop 2 (scenario_bandit 2 3 [(9 # 10)%Q; (1 # 10)%Q])
               scenario_world_constructed = Ok (b, w) /\
    simulate (scenario_bandit 2 3 [(9 # 10)%Q; (1 # 10)%Q])
             scenario_world_constructed = Ok (b', w') /\
    sumZ (_tries b) = 2 /\ sumZ (_tries b') = 3.
Proof.
  eexists _, _, _, _.
  first_by_evaluation Hloop. first_by_evaluation Hsim.
  destruct (sum_tries_is_turns_executed _ _ _ _ _ _ _ _ _ _ _
              (scenario_constructed 2 3 eq_refl)) as [Hn Hall].
  split.
  - exact (Hn _ _ _ _ Hloop).
  - exact (Hall _ _ ltac:(lia) Hsim).
Defined.

Lemma tries_bound_wins_and_grow_witness :
  exists b w b2 w2,
    turns_loop 1 (scenario_bandit 2 3 [(9 # 10)%Q; (1 # 10)%Q])
               scenario_world_constructed = Ok (b, w) /\
    turn b w = Ok (b2, w2) /\
    (exists t wn, _tries b !! 1%nat = Some t /\ _wins b !! 1%nat = Some wn /\
                  0 <= wn <= t) /\
    (exists t wn t2 wn2,
       _tries b !! 0%nat = Some t /\ _wins b !! 0%nat = Some wn /\
       _tries b2 !! 0%nat = Some t2 /\ _wins b2 !! 0%nat = Some wn2 /\
       t <= t2 /\ wn <= wn2).
Proof.
  eexists _, _, _, _.
  first_by_evaluation Hloop. first_by_evaluation Hturn.
  destruct (tries_bound_wins_and_grow _ _ _ _ _ _ _ _ _ _ _
              (scenario_constructed 2 3 eq_refl) _ _ _ _ Hloop) as [Hnow Hnext].
  split.
  - exact (Hnow 1%nat ltac:(vm_compute; lia)).
  - exact (Hnext _ _ _ Hturn 0%nat ltac:(vm_compute; lia)).
Defined.

Lemma histories_have_one_entry_per_turn_witness :
  exists b w b' w',
    turns_loop 2 (scenario_bandit 2 3 [(9 # 10)%Q; (1 # 10)%Q])
               scenario_world_constructed = Ok (b, w) /\
    simulate (scenario_bandit 2 3 [(9 # 10)%Q; (1 # 10)%Q])
             scenario_world_constructed = Ok (b', w') /\
    (length (_score b) = 2%nat /\ length (_knowledge b) = 2%nat /\
     length (_opinion b) = 2%nat /\ length (_probexplore b) = 2%nat) /\
    (Z.of_nat (length (_score b')) = 3 /\ Z.of_nat (length (_knowledge b')) = 3 /\
     Z.of_nat (length (_opinion b')) = 3 /\ Z.of_nat (length (_probexplore b')) = 3).
Proof.
  eexists _, _, _, _.
  first_by_evaluation Hloop. first_by_evaluation Hsim.
  destruct (histories_have_one_entry_per_turn _ _ _ _ _ _ _ _ _ _ _
              (scenario_constructed 2 3 eq_refl)) as [Hn Hall].
  split.
  - exact (Hn _ _ _ _ Hloop).
  - exact (Hall _ _ ltac:(lia) Hsim).
Defined.

Lemma turn_outcome_step_witness :
  exists b' w',
    turn (scenario_bandit 2 1 [(9 # 10)%Q; (1 # 10)%Q]) scenario_world_constructed
      = Ok (b', w') /\
    _tries b' = [0; 1] /\ _wins b' = [0; 1] /\ _assetstock b' = 1 /\
    _score b' = [_assetstock b'].
Proof.
  eexists _, _.
  first_by_evaluation Hturn.
  destruct (turn_outcome_step _ _ _ _ Hturn)
    as (payoffs & probs & w1 & w2 & t & p & H).
  cbn zeta in H. destruct H as (Hturb & Hstrat & Ht & Htries & Hp & Hout & Hscore).
  injection Hturb as <- <-. injection Hstrat as <- <-.
  injection Ht as <-. injection Hp as <-.
  cbn in Hout. destruct Hout as [(wn & [= <-] & Hwins) Hstock].
  repeat split; assumption.
Defined.

Lemma stock_is_twice_wins_less_tries_witness :
  exists b w bt wt,
    turns_loop 3 (scenario_bandit 2 3 [(9 # 10)%Q; (1 # 10)%Q])
               scenario_world_constructed = Ok (b, w) /\
    turns_loop 2 (scenario_bandit 2 3 [(9 # 10)%Q; (1 # 10)%Q])
               scenario_world_constructed = Ok (bt, wt) /\
    _assetstock b = 2 * sumZ (_wins b) - sumZ (_tries b) /\
    _score b !! 1%nat = Some (2 * sumZ (_wins bt) - (Z.of_nat 1 + 1)).
Proof.
  eexists _, _, _, _.
  first_by_evaluation Hloop. first_by_evaluation Hprefix.
  destruct (stock_is_twice_wins_less_tries _ _ _ _ _ _ _ _ _ _ _
              (scenario_constructed 2 3 eq_refl) _ _ _ _ Hloop) as [Hstock Hscore].
  split.
  - exact Hstock.
  - exact (Hscore 1%nat _ _ ltac:(lia) Hprefix).
Defined.

Lemma zero_turn_run_accessors_raise_witness :
  exists b w,
    simulate (scenario_bandit 2 0 [(9 # 10)%Q; (1 # 10)%Q])
             scenario_world_constructed = Ok (b, w) /\
    _score b = [] /\ _complete b = true /\ fst (score b) = Raise IndexError.
Proof.
  destruct (zero_turn_run_accessors_raise _ _ _ _ _ _ _ _ _ _
              (scenario_constructed 2 0 eq_refl))
    as (b & w & Hsim & Hscore & _ & _ & _ & Hcomplete & Hraise & _).
  exists b, w. repeat split; assumption.
Defined.

Lemma accessors_read_last_entry_witness :
  exists b w,
    simulate (scenario_bandit 2 3 [(9 # 10)%Q; (1 # 10)%Q])
             scenario_world_constructed = Ok (b, w) /\
    _complete b = true /\ last (_score b) = Some (-1) /\
    score b = (Ok (Some (-1)), b) /\
    _complete (scenario_bandit 2 3 [(9 # 10)%Q; (1 # 10)%Q]) = false /\
    score (scenario_bandit 2 3 [(9 # 10)%Q; (1 # 10)%Q])
      = (Ok None, scenario_bandit 2 3 [(9 # 10)%Q; (1 # 10)%Q]).
Proof.
  eexists _, _.
  first_by_evaluation Hsim.
  lazymatch goal with
  | |- _complete ?b = true /\ _ =>
      destruct (accessors_read_last_entry b) as (_ & Hdone & _)
  end.
  destruct (accessors_read_last_entry
              (scenario_bandit 2 3 [(9 # 10)%Q; (1 # 10)%Q])) as (Hnot & _ & _).
  split; [reflexivity|]. split; [reflexivity|].
  split; [exact (proj1 (Hdone eq_refl) (-1) eq_refl)|].
  split; [reflexivity|].
  exact (proj1 (Hnot eq_refl)).
Defined.

(** * Further properties of the run *)

Section RunExtras.
Context {R : Type} {num : Num R} {W : Type} {amb : Ambient W R}.
Implicit Types (b : @Bandit R W) (w : W).

Lemma sumZ_wins_le_tries (tries wins : list Z) :
  Forall2 (fun t wn => 0 <= wn <= t) tries wins ->
  0 <= sumZ wins <= sumZ tries.
Proof.
  induction 1 as [|t wn ts ws Hb _ IH]; [cbn; lia|].
  change (sumZ (wn :: ws)) with (wn + sumZ ws).
  change (sumZ (t :: ts)) with (t + sumZ ts). lia.
Qed.

(** A run of [n + m] turns that completes is a run of [n] turns that
    completes followed by one of [m] turns. *)
Lemma turns_loop_split n m b w b' w' :
  turns_loop (n + m) b w = Ok (b', w') ->
  exists b1 w1, turns_loop n b w = Ok (b1, w1) /\ turns_loop m b1 w1 = Ok (b', w').
Proof. rewrite turns_loop_add. apply bind_Ok. Qed.

Lemma turns_loop_one b w b' w' :
  turns_loop 1 b w = Ok (b', w') <-> turn b w = Ok (b', w').
Proof.
  cbn. rewrite bind_Ok. split.
  - intros (b1 & w1 & H1 & Hr). apply ret_Ok in Hr as [-> ->]. exact H1.
  - intros H. exists b', w'. split; [exact H | reflexivity].
Qed.

(** The score recorded for turn [t] is the asset stock after [t + 1] turns. *)
Lemma score_entry_is_stock arms turns pf tf sf tb bf st w0 b0 w1 n w b w' t :
  __init__ arms turns pf tf sf tb bf st w0 = Ok (b0, w1) ->
  turns_loop n b0 w = Ok (b, w') -> (t < n)%nat ->
  exists bt wt,
    turns_loop (S t) b0 w = Ok (bt, wt) /\
    turns_loop (n - S t) bt wt = Ok (b, w') /\
    consistent (S t) bt /\
    _score b !! t = Some (_assetstock bt).
Proof.
  intros Hinit Hrun Hlt.
  replace n with (S t + (n - S t))%nat in Hrun by lia.
  apply turns_loop_split in Hrun as (bt & wt & Hbt & Hrest).
  destruct (run_consistent _ _ _ _ _ _ _ _ _ _ _ _ _ _ _ Hinit Hbt) as [Hct _].
  exists bt, wt. split; [exact Hbt|]. split; [exact Hrest|]. split; [exact Hct|].
  destruct (turns_loop_score_prefix _ _ _ _ _ Hrest) as (later & ->).
  pose proof (score_last _ _ Hct ltac:(lia)) as Hlast.
  rewrite last_lookup, (score_length _ _ Hct) in Hlast. cbn in Hlast.
  exact (lookup_app_l_Some _ _ _ _ Hlast).
Qed.

Lemma stock_range n b :
  consistent n b ->
  - Z.of_nat n <= _assetstock b <= Z.of_nat n /\
  (_assetstock b + Z.of_nat n) mod 2 = 0.
Proof.
  intros Hc.
  pose proof (sumZ_wins_le_tries _ _ (wins_le_tries _ _ Hc)) as Hw.
  rewrite (stock_balance _ _ Hc), (tries_total _ _ Hc) in *.
  split; [lia|].
  replace (2 * sumZ (_wins b) - Z.of_nat n + Z.of_nat n) with (sumZ (_wins b) * 2) by lia.
  apply Z_mod_mult.
Qed.

(** X1. After [n] turns the asset stock lies between [-n] and [n] and has the
    parity of [n]; the score recorded for turn [t] lies between [-(t+1)] and
    [t+1] and has the parity of [t+1]; so the final score of a complete run
    of [turn_count >= 0] turns lies between [-turn_count] and [turn_count]. *)
Theorem score_bounded_by_turns arms turns pf tf sf tb bf st w0 b0 w1 :
  __init__ arms turns pf tf sf tb bf st w0 = Ok (b0, w1) ->
  (forall n w b w', turns_loop n b0 w = Ok (b, w') ->
     (- Z.of_nat n <= _assetstock b <= Z.of_nat n /\
      (_assetstock b + Z.of_nat n) mod 2 = 0) /\
     (forall t s, _score b !! t = Some s ->
        - (Z.of_nat t + 1) <= s <= Z.of_nat t + 1 /\
        (s + (Z.of_nat t + 1)) mod 2 = 0)) /\
  (forall b w, 0 <= turns -> simulate b0 w1 = Ok (b, w) ->
     - turns <= _assetstock b <= turns /\ (_assetstock b + turns) mod 2 = 0).
Proof.
  intros Hinit. split.
  - intros n w b w' Hrun.
    destruct (run_consistent _ _ _ _ _ _ _ _ _ _ _ _ _ _ _ Hinit Hrun) as [Hc _].
    split; [exact (stock_range n b Hc)|].
    intros t s Hs.
    assert (t < n)%nat as Hlt.
    { rewrite <- (score_length _ _ Hc). eapply lookup_lt_Some. exact Hs. }
    destruct (score_entry_is_stock _ _ _ _ _ _ _ _ _ _ _ _ _ _ _ _ Hinit Hrun Hlt)
      as (bt & wt & _ & _ & Hct & Hentry).
    assert (s = _assetstock bt) as -> by congruence.
    pose proof (stock_range _ _ Hct) as Hr.
    replace (Z.of_nat (S t)) with (Z.of_nat t + 1) in Hr by lia. exact Hr.
  - intros b w Hturns Hsim.
    destruct (simulate_consistent _ _ _ _ _ _ _ _ _ _ _ _ _ Hinit Hsim) as [Hc _].
    pose proof (stock_range _ _ Hc) as Hr.
    rewrite Z2Nat.id in Hr by exact Hturns. exact Hr.
Qed.

(** X2. The score history moves by exactly one each turn: its first entry is
    [1] or [-1], and each later entry is the one before it plus or minus 1. *)
Theorem score_moves_by_one arms turns pf tf sf tb bf st w0 b0 w1 :
  __init__ arms turns pf tf sf tb bf st w0 = Ok (b0, w1) ->
  forall n w b w', turns_loop n b0 w = Ok (b, w') ->
    (forall s, _score b !! O = Some s -> s = 1 \/ s = -1) /\
    (forall t s s', _score b !! t = Some s -> _score b !! S t = Some s' ->
       s' = s + 1 \/ s' = s - 1).
Proof.
  intros Hinit n w b w' Hrun.
  destruct (run_consistent _ _ _ _ _ _ _ _ _ _ _ _ _ _ _ Hinit Hrun) as [Hc _].
  split.
  - intros s Hs.
    assert (0 < n)%nat as Hlt.
    { rewrite <- (score_length _ _ Hc). eapply lookup_lt_Some. exact Hs. }
    destruct (score_entry_is_stock _ _ _ _ _ _ _ _ _ _ _ _ _ _ _ _ Hinit Hrun Hlt)
      as (b1 & wt & Hb1 & _ & _ & Hentry).
    assert (s = _assetstock b1) as -> by congruence.
    apply turns_loop_one in Hb1.
    apply turn_counters in Hb1 as (c & tc & _ & _ & Hstock & _).
    apply init_Ok in Hinit as (payoffs & Hdrawn & Hb0).
    rewrite Hb0 in Hstock. cbn in Hstock.
    destruct Hstock as [(wn & _ & _ & Hup) | (_ & Hdown)]; lia.
  - intros t s s' Hs Hs'.
    assert (S t < n)%nat as Hlt'.
    { rewrite <- (score_length _ _ Hc). eapply lookup_lt_Some. exact Hs'. }
    destruct (score_entry_is_stock _ _ _ _ _ _ _ _ _ _ _ _ _ _ _ t Hinit Hrun
                ltac:(lia)) as (bt & wt & Hbt & _ & _ & Hentry).
    destruct (score_entry_is_stock _ _ _ _ _ _ _ _ _ _ _ _ _ _ _ (S t) Hinit Hrun Hlt')
      as (bt' & wt' & Hbt' & _ & _ & Hentry').
    assert (s = _assetstock bt) as -> by congruence.
    assert (s' = _assetstock bt') as -> by congruence.
    replace (S (S t)) with (S t + 1)%nat in Hbt' by lia.
    apply turns_loop_split in Hbt' as (b1 & w1' & Hb1 & Hstep).
    rewrite Hbt in Hb1. injection Hb1 as <- <-.
    apply turns_loop_one in Hstep.
    apply turn_counters in Hstep as (c & tc & _ & _ & Hstock & _).
    destruct Hstock as [(wn & _ & _ & Hup) | (_ & Hdown)]; lia.
Qed.
End RunExtras.

Lemma score_bounded_by_turns_witness :
  exists b w,
    simulate (scenario_bandit 2 3 [(9 # 10)%Q; (1 # 10)%Q])
             scenario_world_constructed = Ok (b, w) /\
    - 3 <= _assetstock b <= 3 /\ (_assetstock b + 3) mod 2 = 0.
Proof.
  eexists _, _.
  first_by_evaluation Hsim.
  destruct (score_bounded_by_turns _ _ _ _ _ _ _ _ _ _ _
              (scenario_constructed 2 3 eq_refl)) as [_ Hall].
  exact (Hall _ _ ltac:(lia) Hsim).
Defined.

Lemma score_moves_by_one_witness :
  exists b w,
    turns_loop 3 (scenario_bandit 2 3 [(9 # 10)%Q; (1 # 10)%Q])
               scenario_world_constructed = Ok (b, w) /\
    _score b !! 1%nat = Some 0 /\ _score b !! 2%nat = Some (-1) /\
    (-1 = 0 + 1 \/ -1 = 0 - 1).
Proof.
  eexists _, _.
  first_by_evaluation Hloop.
  split; [reflexivity|]. split; [reflexivity|].
  destruct (score_moves_by_one _ _ _ _ _ _ _ _ _ _ _
              (scenario_constructed 2 3 eq_refl) _ _ _ _ Hloop) as [_ Hstep].
  exact (Hstep 1%nat 0 (-1) eq_refl eq_refl).
Defined.

(** ** What a run changes and what it leaves alone *)

Section FrameExtras.
Context {R : Type} {num : Num R} {W : Type} {amb : Ambient W R}.
Implicit Types (b : @Bandit R W) (w : W).

Lemma same_configuration_refl b : same_configuration b b.
Proof. repeat split. Qed.

Lemma same_configuration_trans b1 b2 b3 :
  same_configuration b1 b2 -> same_configuration b2 b3 -> same_configuration b1 b3.
Proof.
  unfold same_configuration.
  intros (? & ? & ? & ? & ? & ? & ? & ?) (? & ? & ? & ? & ? & ? & ? & ?).
  repeat split; congruence.
Qed.

Lemma turn_frame b w b' w' :
  turn b w = Ok (b', w') ->
  same_configuration b b' /\ _complete b' = _complete b /\ _simtime b' = _simtime b.
Proof.
  intros H. apply turn_Ok in H
    as (payoffs & probs & w1 & w2 & t & p & wa & beliefs & k & o & pe & H).
  cbn zeta in H. destruct H as (_ & _ & _ & _ & _ & _ & _ & _ & _ & ->).
  repeat split.
Qed.

Lemma turns_loop_frame n b w b' w' :
  turns_loop n b w = Ok (b', w') ->
  same_configuration b b' /\ _complete b' = _complete b /\ _simtime b' = _simtime b.
Proof.
  revert b w. induction n as [|n IH]; intros b w H.
  - apply ret_Ok in H as [-> ->]. split; [apply same_configuration_refl | auto].
  - cbn in H. bind_inv H b1 w1 H1.
    destruct (turn_frame _ _ _ _ H1) as (Hc1 & Hd1 & Ht1).
    destruct (IH _ _ H) as (Hc & Hd & Ht).
    split; [exact (same_configuration_trans _ _ _ Hc1 Hc)|]. split; congruence.
Qed.

Lemma simulate_frame b w b' w' :
  simulate b w = Ok (b', w') -> same_configuration b b' /\ _complete b' = true.
Proof.
  intros H. apply simulate_Ok in H as (b1 & w2 & Hloop & -> & _).
  destruct (turns_loop_frame _ _ _ _ _ Hloop) as (Hc & _).
  split; [exact Hc | reflexivity].
Qed.

(** X3. The flag [_complete] is false from construction until the loop of
    [simulate] has finished, so at every point reached by turns alone the
    four accessors return [None]; [simulate] sets it, and neither a further
    turn nor a further [simulate] resets it. *)
Theorem complete_set_by_simulate_only arms turns pf tf sf tb bf st w0 b0 w1 :
  __init__ arms turns pf tf sf tb bf st w0 = Ok (b0, w1) ->
  (forall n w b w', turns_loop n b0 w = Ok (b, w') ->
     _complete b = false /\
     fst (score b) = Ok None /\ fst (knowledge b) = Ok None /\
     fst (opinion b) = Ok None /\ fst (probexplore b) = Ok None) /\
  (forall b w b' w', simulate b w = Ok (b', w') -> _complete b' = true) /\
  (forall b w b' w', _complete b = true -> turn b w = Ok (b', w') ->
     _complete b' = true).
Proof.
  intros Hinit. split; [|split].
  - intros n w b w' Hrun.
    destruct (turns_loop_frame _ _ _ _ _ Hrun) as (_ & Hd & _).
    apply init_Ok in Hinit as (payoffs & _ & Hb0). rewrite Hb0 in Hd. cbn in Hd.
    unfold score, knowledge, opinion, probexplore. rewrite Hd. repeat split.
  - intros b w b' w' Hsim. exact (proj2 (simulate_frame _ _ _ _ Hsim)).
  - intros b w b' w' Hdone Hturn.
    destruct (turn_frame _ _ _ _ Hturn) as (_ & Hd & _). congruence.
Qed.

(** X4. Neither a turn nor a whole run changes the arm count, the turn count,
    the four policy functions or the two policy parameters of the object. *)
Theorem run_keeps_configuration b w b' w' :
  (turn b w = Ok (b', w') -> same_configuration b b') /\
  (forall n, turns_loop n b w = Ok (b', w') -> same_configuration b b') /\
  (simulate b w = Ok (b', w') -> same_configuration b b').
Proof.
  split; [|split].
  - intros H. exact (proj1 (turn_frame _ _ _ _ H)).
  - intros n H. exact (proj1 (turns_loop_frame _ _ _ _ _ H)).
  - intros H. exact (proj1 (simulate_frame _ _ _ _ H)).
Qed.

(** X5. [simulate] on an object that has already completed a run runs
    [turn_count] more turns on top of the first run: the histories keep the
    entries of the first run and end with twice [turn_count] entries, the
    tries add up to twice [turn_count], and the object stays complete. *)
Theorem second_run_appends arms turns pf tf sf tb bf st w0 b0 w1 b1 w2 :
  __init__ arms turns pf tf sf tb bf st w0 = Ok (b0, w1) ->
  0 <= turns ->
  simulate b0 w1 = Ok (b1, w2) ->
  forall w b2 w3, simulate b1 w = Ok (b2, w3) ->
    (exists later, _score b2 = _score b1 ++ later /\
                   Z.of_nat (length later) = turns) /\
    Z.of_nat (length (_score b2)) = 2 * turns /\
    Z.of_nat (length (_knowledge b2)) = 2 * turns /\
    Z.of_nat (length (_opinion b2)) = 2 * turns /\
    Z.of_nat (length (_probexplore b2)) = 2 * turns /\
    sumZ (_tries b2) = 2 * turns /\
    _complete b2 = true.
Proof.
  intros Hinit Hturns Hsim1 w b2 w3 Hsim2.
  destruct (simulate_consistent _ _ _ _ _ _ _ _ _ _ _ _ _ Hinit Hsim1) as [Hc1 _].
  destruct (simulate_frame _ _ _ _ Hsim1) as ((_ & Hturns1 & _) & _).
  assert (_turns b0 = turns) as Hturns0.
  { apply init_Ok in Hinit as (payoffs & _ & ->). reflexivity. }
  apply simulate_Ok in Hsim2 as (b' & w' & Hloop & -> & _).
  rewrite Hturns1, Hturns0 in Hloop.
  pose proof (turns_loop_consistent _ _ _ _ _ _ Hc1 Hloop) as Hc2.
  destruct (turns_loop_score_prefix _ _ _ _ _ Hloop) as (later & Hlater).
  destruct Hc2 as [Hsum _ _ _ Hs Hk Ho Hp _].
  cbn [finish _score _knowledge _opinion _probexplore _tries _complete].
  split.
  - exists later. split; [exact Hlater|].
    rewrite Hlater, length_app, (score_length _ _ Hc1) in Hs. lia.
  - rewrite Hs, Hk, Ho, Hp, Hsum. repeat split; lia.
Qed.
End FrameExtras.

Lemma complete_set_by_simulate_only_witness :
  exists b w b' w',
    turns_loop 2 (scenario_bandit 2 3 [(9 # 10)%Q; (1 # 10)%Q])
               scenario_world_constructed = Ok (b, w) /\
    simulate b w = Ok (b', w') /\
    _complete b = false /\ fst (score b) = Ok None /\ _complete b' = true.
Proof.
  eexists _, _, _, _.
  first_by_evaluation Hloop. first_by_evaluation Hsim.
  destruct (complete_set_by_simulate_only _ _ _ _ _ _ _ _ _ _ _
              (scenario_constructed 2 3 eq_refl)) as (Hturns & Hdone & _).
  destruct (Hturns _ _ _ _ Hloop) as (Hfalse & Hnone & _).
  split; [exact Hfalse|]. split; [exact Hnone|].
  exact (Hdone _ _ _ _ Hsim).
Defined.

Lemma run_keeps_configuration_witness :
  exists b w,
    simulate (scenario_bandit 2 3 [(9 # 10)%Q; (1 # 10)%Q])
             scenario_world_constructed = Ok (b, w) /\
    same_configuration (scenario_bandit 2 3 [(9 # 10)%Q; (1 # 10)%Q]) b.
Proof.
  eexists _, _.
  first_by_evaluation Hsim.
  exact (proj2 (proj2 (run_keeps_configuration _ _ _ _)) Hsim).
Defined.

Lemma second_run_appends_witness :
  exists b1 w2 b2 w3,
    simulate (scenario_bandit 2 2 [(9 # 10)%Q; (1 # 10)%Q])
             scenario_world_constructed = Ok (b1, w2) /\
    simulate b1 w2 = Ok (b2, w3) /\
    _score b1 = [1; 0] /\ _score b2 = [1; 0; -1; 0] /\
    Z.of_nat (length (_knowledge b2)) = 2 * 2 /\ sumZ (_tries b2) = 2 * 2 /\
    _complete b2 = true.
Proof.
  eexists _, _, _, _.
  first_by_evaluation Hsim1. first_by_evaluation Hsim2.
  split; [reflexivity|]. split; [reflexivity|].
  destruct (second_run_appends _ _ _ _ _ _ _ _ _ _ _ _ _
              (scenario_constructed 2 2 eq_refl) ltac:(lia) Hsim1 _ _ _ Hsim2)
    as (_ & _ & Hk & _ & _ & Hsum & Hdone).
  split; [exact Hk|]. split; [exact Hsum | exact Hdone].
Defined.

(** ** Sizes of the per-arm lists, and runs that raise *)

Section ErrorExtras.
Context {R : Type} {num : Num R} {W : Type} {amb : Ambient W R}.
Implicit Types (b : @Bandit R W) (w : W).

Lemma replicateM_length {A} (n : nat) (m : M W A) w l w' :
  replicateM n m w = Ok (l, w') -> length l = n.
Proof.
  revert w l w'. induction n as [|n IH]; intros w l w' H.
  - apply ret_Ok in H as [-> _]. reflexivity.
  - cbn in H. bind_inv H a w1 Ha. bind_inv H l1 w2 Hl.
    apply ret_Ok in H as [-> _]. cbn. rewrite (IH _ _ _ Hl). reflexivity.
Qed.

Lemma map_result_Ok_inv {A B} (f : A -> result B) (l : list A) vs :
  map_result f l = Ok vs -> forall a, a ∈ l -> exists v, f a = Ok v.
Proof.
  revert vs. induction l as [|a l IH]; intros vs H a' Ha'.
  - inversion Ha'.
  - cbn in H. destruct (f a) as [v|] eqn:Hfa; [|discriminate].
    destruct (map_result f l) as [vs'|] eqn:Hl; [|discriminate].
    inversion Ha'; subst; [eauto | eapply IH; eauto].
Qed.

(** The knowledge metric reads [beliefs[i]] and [payoffs[i]] for every arm:
    when it returns, both lists have at least one entry per arm. *)
Lemma knowledge_metric_Ok_lengths (arms : Z) (beliefs payoffs : list R) k :
  knowledge_metric arms beliefs payoffs = Ok k ->
  (Z.to_nat arms <= length beliefs)%nat /\ (Z.to_nat arms <= length payoffs)%nat.
Proof.
  unfold knowledge_metric. intros H.
  destruct (Z.to_nat arms) as [|m] eqn:Hm; [lia|].
  match type of H with
  | context [map_result ?f ?l] =>
      destruct (map_result f l) as [sq|] eqn:Hsq; [|discriminate];
      destruct (map_result_Ok_inv f l sq Hsq m) as [v Hv]
  end.
  { unfold range. rewrite Hm. apply elem_of_seq. lia. }
  unfold getitem in Hv.
  destruct (beliefs !! m) as [bi|] eqn:Hb; [|discriminate].
  destruct (payoffs !! m) as [pi|] eqn:Hp; [|discriminate].
  apply lookup_lt_Some in Hb. apply lookup_lt_Some in Hp. lia.
Qed.

(** X6. Construction leaves one payoff, one try count, one win count and one
    belief per arm.  During a run [tries] and [wins] keep exactly that size,
    and after every completed turn the payoffs and the beliefs the policy
    functions returned have at least one entry per arm (a shorter list makes
    the turn raise). *)
Theorem per_arm_lists_sized arms turns pf tf sf tb bf st w0 b0 w1 :
  __init__ arms turns pf tf sf tb bf st w0 = Ok (b0, w1) ->
  (length (_payoffs b0) = Z.to_nat arms /\ length (_tries b0) = Z.to_nat arms /\
   length (_wins b0) = Z.to_nat arms /\ length (_beliefs b0) = Z.to_nat arms) /\
  (forall n w b w', turns_loop n b0 w = Ok (b, w') ->
     length (_tries b) = Z.to_nat arms /\ length (_wins b) = Z.to_nat arms /\
     ((0 < n)%nat ->
        (Z.to_nat arms <= length (_payoffs b))%nat /\
        (Z.to_nat arms <= length (_beliefs b))%nat)).
Proof.
  intros Hinit. split.
  - apply init_Ok in Hinit as (payoffs & Hp & ->). cbn.
    rewrite !length_replicate, (replicateM_length _ _ _ _ _ Hp). auto.
  - intros n w b w' Hrun.
    destruct (run_consistent _ _ _ _ _ _ _ _ _ _ _ _ _ _ _ Hinit Hrun) as [Hc Harms].
    pose proof (arms_tracked _ _ Hc) as Ht. rewrite Harms in Ht.
    pose proof (Forall2_length _ _ _ (wins_le_tries _ _ Hc)) as Hw.
    split; [exact Ht|]. split; [lia|].
    intros Hn. replace n with ((n - 1) + 1)%nat in Hrun by lia.
    apply turns_loop_split in Hrun as (bm & wm & Hbm & Hlast).
    apply turns_loop_one in Hlast.
    destruct (run_consistent _ _ _ _ _ _ _ _ _ _ _ _ _ _ _ Hinit Hbm) as [_ Harmsm].
    apply turn_Ok in Hlast
      as (payoffs & probs & wa & wb & t & p & wo & beliefs & k & o & pe & H).
    cbn zeta in H. destruct H as (_ & _ & _ & _ & _ & _ & Hk & _ & _ & ->). cbn.
    rewrite Harmsm in Hk.
    destruct (knowledge_metric_Ok_lengths _ _ _ _ Hk). auto.
Qed.

Lemma turn_needs_an_arm b w b' w' :
  turn b w = Ok (b', w') -> _tries b <> [].
Proof.
  intros H Hnil. apply turn_counters in H as (c & t & Ht & _).
  rewrite Hnil in Ht. discriminate.
Qed.

(** X7. An object constructed with [arm_count <= 0] cannot run a turn: no
    turn completes, so no run of one turn or more completes; and when the
    turbulence and strategy functions return, [simulate] raises
    [IndexError] (from [self._tries[choice]] on the empty list). *)
Theorem run_without_arms_raises arms turns pf tf sf tb bf st w0 b0 w1 :
  arms <= 0 ->
  __init__ arms turns pf tf sf tb bf st w0 = Ok (b0, w1) ->
  (forall w b w', turn b0 w <> Ok (b, w')) /\
  (0 < turns -> forall b w, simulate b0 w1 <> Ok (b, w)) /\
  (0 < turns ->
   forall payoffs wa probs wb,
     tf (_payoffs b0) pf tb (snd (datetime_now w1)) = Ok (payoffs, wa) ->
     sf (_beliefs b0) st wa = Ok (probs, wb) ->
     simulate b0 w1 = Raise IndexError).
Proof.
  intros Harms Hinit.
  apply init_Ok in Hinit as (payoffs0 & _ & ->).
  assert (forall w b w',
            turn (constructed arms turns pf tf sf tb bf st payoffs0) w <> Ok (b, w'))
    as Hturn.
  { intros w b w' H. apply turn_needs_an_arm in H. apply H. cbn.
    replace (Z.to_nat arms) with O by lia. reflexivity. }
  split; [exact Hturn|]. split.
  - intros Hturns b w Hsim. apply simulate_Ok in Hsim as (b1 & w2 & Hloop & _).
    cbn [constructed _turns] in Hloop.
    destruct (Z.to_nat turns) as [|n] eqn:Hn; [lia|].
    cbn in Hloop. bind_inv Hloop b' w' H1. exact (Hturn _ _ _ H1).
  - intros Hturns payoffs wa probs wb Htf Hsf.
    unfold simulate, bind, now. cbn [constructed _turns].
    destruct (datetime_now w1) as [start ws] eqn:Hnow. cbn [snd] in Htf.
    destruct (Z.to_nat turns) as [|n] eqn:Hn; [lia|].
    cbn [turns_loop]. unfold bind, turn, bind.
    cbn [constructed _turbulence_fxn _payoffs _payoff_fxn _turbulence
         _strategy_fxn _beliefs _strategy _tries] in *.
    rewrite Htf, Hsf. unfold random.
    destruct (random_random wb) as [x wc].
    replace (Z.to_nat arms) with O by lia. reflexivity.
Qed.

Lemma turns_loop_Raise n b w e :
  turns_loop n b w = Raise e <->
  exists k bk wk, (k < n)%nat /\ turns_loop k b w = Ok (bk, wk) /\
                  turn bk wk = Raise e.
Proof.
  revert b w. induction n as [|n IH]; intros b w.
  - split; [discriminate | intros (k & _ & _ & Hk & _); lia].
  - cbn [turns_loop]. rewrite bind_Raise. split.
    + intros [H | (b1 & w1 & H1 & Hn)].
      * exists O, b, w. split; [lia|]. split; [reflexivity | exact H].
      * apply IH in Hn as (k & bk & wk & Hk & Hloop & Hturn).
        exists (S k), bk, wk. split; [lia|]. split; [|exact Hturn].
        cbn. apply bind_Ok. eauto.
    + intros (k & bk & wk & Hk & Hloop & Hturn). destruct k as [|k].
      * apply ret_Ok in Hloop as [-> ->]. left. exact Hturn.
      * cbn in Hloop. bind_inv Hloop b1 w1 H1. right.
        exists b1, w1. split; [exact H1|]. apply IH.
        exists k, bk, wk. split; [lia|]. auto.
Qed.

(** X8. [simulate] raises exactly when one of its [turn_count] turns raises,
    and then with the exception of that turn, after the turns before it have
    completed: nothing is caught or swallowed, and nothing else raises. *)
Theorem simulate_raises_with_first_failing_turn b w e :
  simulate b w = Raise e <->
  exists k bk wk,
    (k < Z.to_nat (_turns b))%nat /\
    turns_loop k b (snd (datetime_now w)) = Ok (bk, wk) /\
    turn bk wk = Raise e.
Proof.
  rewrite <- turns_loop_Raise. unfold simulate, now.
  rewrite bind_Raise. split.
  - intros [H | (start & ws & [= Hnow] & H)]; [discriminate|].
    rewrite Hnow. cbn [snd]. apply bind_Raise in H as [H | (b1 & w2 & _ & H)];
      [exact H|].
    apply bind_Raise in H as [H | (stop & w3 & _ & H)]; discriminate.
  - intros H. right. exists (fst (datetime_now w)), (snd (datetime_now w)).
    split; [destruct (datetime_now w); reflexivity|].
    apply bind_Raise. left. exact H.
Qed.
End ErrorExtras.

Lemma per_arm_lists_sized_witness :
  exists b w,
    turns_loop 2 (scenario_bandit 2 3 [(9 # 10)%Q; (1 # 10)%Q])
               scenario_world_constructed = Ok (b, w) /\
    length (_tries b) = 2%nat /\ length (_wins b) = 2%nat /\
    (2 <= length (_payoffs b))%nat /\ (2 <= length (_beliefs b))%nat.
Proof.
  eexists _, _.
  first_by_evaluation Hloop.
  destruct (per_arm_lists_sized _ _ _ _ _ _ _ _ _ _ _
              (scenario_constructed 2 3 eq_refl)) as [_ Hrun].
  destruct (Hrun _ _ _ _ Hloop) as (Ht & Hw & Hrest).
  destruct (Hrest ltac:(lia)) as [Hp Hb].
  repeat split; assumption.
Defined.

Lemma run_without_arms_raises_witness :
  0 <= 0 /\ 0 < 2 /\
  scenario 0 2 scenario_world = Ok (scenario_bandit 0 2 [], scenario_world) /\
  simulate (scenario_bandit 0 2 []) scenario_world = Raise IndexError.
Proof.
  assert (scenario 0 2 scenario_world = Ok (scenario_bandit 0 2 [], scenario_world))
    as Hinit by reflexivity.
  split; [lia|]. split; [lia|]. split; [exact Hinit|].
  destruct (run_without_arms_raises 0 2 _ _ _ _ _ _ _ _ _ ltac:(lia) Hinit)
    as (_ & _ & Hraise).
  exact (Hraise ltac:(lia) _ _ _ _ eq_refl eq_refl).
Defined.

Lemma simulate_raises_with_first_failing_turn_witness :
  turn (scenario_bandit 0 2 []) (snd (datetime_now scenario_world)) = Raise IndexError /\
  simulate (scenario_bandit 0 2 []) scenario_world = Raise IndexError.
Proof.
  assert (turn (scenario_bandit 0 2 []) (snd (datetime_now scenario_world))
          = Raise IndexError) as Hturn by reflexivity.
  split; [exact Hturn|].
  apply (proj2 (simulate_raises_with_first_failing_turn _ _ _)).
  exists O, (scenario_bandit 0 2 []), (snd (datetime_now scenario_world)).
  split; [cbn; lia|]. split; [reflexivity | exact Hturn].
Defined.

(** ** The arm selection, further *)

Section SelectionExtras.
Context {R : Type} {num : Num R}.

(** Each running sum is the one before it plus the next value. *)
Lemma accumulate_from_step (total : R) (l : list R) (j : nat) (cj ci p : R) :
  (total :: accumulate_from total l) !! j = Some cj ->
  accumulate_from total l !! j = Some ci ->
  l !! j = Some p ->
  ci = add cj p.
Proof.
  revert total j. induction l as [|q l IH]; intros total j Hcj Hci Hp.
  - destruct j; discriminate.
  - destruct j as [|j]; cbn in Hcj, Hci, Hp.
    + congruence.
    + exact (IH _ _ Hcj Hci Hp).
Qed.

Lemma accumulate_step (probs : list R) (j : nat) (cj ci p : R) :
  accumulate probs !! j = Some cj ->
  accumulate probs !! S j = Some ci ->
  probs !! S j = Some p ->
  ci = add cj p.
Proof.
  destruct probs as [|p0 l]; [discriminate|]. cbn [accumulate].
  intros Hcj Hci Hp. exact (accumulate_from_step p0 l j cj ci p Hcj Hci Hp).
Qed.

(** X9. Whatever the number type and its rounding (no law of order or of
    addition is used): the selected index is at most the number of
    probabilities; the draw is below the cumulative value of the selected
    arm and not below the one before it; and the index is in range as soon
    as the draw is below the last cumulative value. *)
Theorem draw_lies_in_selected_interval (probs : list R) (x : R) :
  (bisect (accumulate probs) x <= length probs)%nat /\
  (forall c, accumulate probs !! bisect (accumulate probs) x = Some c ->
             ltb x c = true) /\
  (forall i c, bisect (accumulate probs) x = S i ->
               accumulate probs !! i = Some c -> ltb x c = false) /\
  (forall v, last (accumulate probs) = Some v -> ltb x v = true ->
             (bisect (accumulate probs) x < length probs)%nat).
Proof.
  destruct (bisect_interval (accumulate probs) x) as (Hle & Hat & Hprev).
  rewrite accumulate_length in Hle.
  split; [exact Hle|]. split; [exact Hat|]. split; [exact Hprev|].
  intros v Hlast Hx. rewrite <- (accumulate_length probs).
  exact (bisect_lt_length _ x v Hlast Hx).
Qed.
End SelectionExtras.

(** With non-negative probabilities, a draw that is not below their sum
    selects the index one past the last arm. *)
Lemma bisect_overshoot (probs : list Q) (x : Q) :
  Forall (fun p => 0 <= p)%Q probs -> (pysum probs <= x)%Q ->
  bisect (accumulate probs) x = length probs.
Proof.
  intros Hpos Hsum.
  destruct (bisect_interval (accumulate probs) x) as (Hle & Hat & _).
  rewrite accumulate_length in Hle.
  destruct (decide (bisect (accumulate probs) x = length probs)) as [|Hne];
    [assumption|].
  exfalso.
  assert (probs <> []) as Hprobs.
  { intros ->. cbn in Hne, Hle. lia. }
  destruct (accumulate_last_pysum probs Hprobs) as (v & Hlast & Hv).
  rewrite last_lookup, accumulate_length in Hlast.
  destruct (lookup_lt_is_Some_2 (accumulate probs) (bisect (accumulate probs) x))
    as [c Hc]; [rewrite accumulate_length; lia|].
  pose proof (Hat c Hc) as Hx. apply Qltb_true in Hx.
  assert (bisect (accumulate probs) x <= pred (length probs))%nat as Hidx by lia.
  pose proof (accumulate_sorted probs Hpos _ _ c v Hidx Hc Hlast) as Hcv.
  lra.
Qed.

(** X10. An arm whose choice probability is zero is never selected by a
    non-negative draw. *)
Theorem zero_probability_arm_never_selected (probs : list Q) (x : Q) (i : nat) (p : Q) :
  (0 <= x)%Q -> probs !! i = Some p -> (p == 0)%Q ->
  bisect (accumulate probs) x <> i.
Proof.
  intros Hx Hp Hzero Hsel.
  destruct (bisect_interval (accumulate probs) x) as (_ & Hat & Hprev).
  rewrite Hsel in Hat.
  destruct (lookup_lt_is_Some_2 (accumulate probs) i) as [ci Hci].
  { rewrite accumulate_length. eapply lookup_lt_Some. exact Hp. }
  pose proof (Hat ci Hci) as Hlt. apply Qltb_true in Hlt.
  destruct i as [|j].
  - destruct probs as [|p0 l]; [discriminate|]. cbn in Hp, Hci.
    assert (ci = p) as -> by congruence. lra.
  - destruct (lookup_lt_is_Some_2 (accumulate probs) j) as [cj Hcj].
    { apply lookup_lt_Some in Hci. lia. }
    pose proof (Hprev j cj Hsel Hcj) as Hge. apply Qltb_false in Hge.
    rewrite (accumulate_step probs j cj ci p Hcj Hci Hp) in Hlt.
    cbn [add Q_Num] in Hlt. lra.
Qed.

Lemma zero_probability_arm_never_selected_witness :
  (0 <= 0)%Q /\ (0 == 0)%Q /\
  bisect (accumulate [0%Q; (1 # 2)%Q; 0%Q; (1 # 2)%Q]) 0%Q <> 0%nat /\
  bisect (accumulate [0%Q; (1 # 2)%Q; 0%Q; (1 # 2)%Q]) (1 # 2)%Q <> 2%nat.
Proof.
  assert (0 <= 0)%Q as H0 by apply Qle_refl.
  assert (0 <= 1 # 2)%Q as Hhalf by (unfold Qle; simpl; lia).
  assert (0 == 0)%Q as Hz by reflexivity.
  split; [exact H0|]. split; [exact Hz|]. split.
  - exact (zero_probability_arm_never_selected
             [0%Q; (1 # 2)%Q; 0%Q; (1 # 2)%Q] 0%Q 0 0%Q H0 eq_refl Hz).
  - exact (zero_probability_arm_never_selected
             [0%Q; (1 # 2)%Q; 0%Q; (1 # 2)%Q] (1 # 2)%Q 2 0%Q Hhalf eq_refl Hz).
Defined.

Lemma draw_lies_in_selected_interval_witness :
  last (accumulate [(1 # 4)%Q; (3 # 4)%Q]) = Some (16 # 16)%Q /\
  ltb (3 # 4)%Q (16 # 16)%Q = true /\
  (bisect (accumulate [(1 # 4)%Q; (3 # 4)%Q]) (3 # 4)%Q < 2)%nat.
Proof.
  split; [reflexivity|]. split; [reflexivity|].
  exact (proj2 (proj2 (proj2
           (draw_lies_in_selected_interval [(1 # 4)%Q; (3 # 4)%Q] (3 # 4)%Q)))
           (16 # 16)%Q eq_refl eq_refl).
Defined.

Section ShortDistribution.
Context {W : Type} {amb : Ambient W Q}.
Implicit Types (b : @Bandit Q W) (w : W).

(** X11. When the strategy function returns non-negative probabilities whose
    sum does not exceed the draw (a distribution that falls short of 1), the
    selected index is one past the last probability, and with no more tries
    than probabilities the turn raises [IndexError]. *)
Theorem short_distribution_raises b w payoffs w1 probs w2 :
  _turbulence_fxn b (_payoffs b) (_payoff_fxn b) (_turbulence b) w = Ok (payoffs, w1) ->
  _strategy_fxn b (_beliefs b) (_strategy b) w1 = Ok (probs, w2) ->
  Forall (fun p => 0 <= p)%Q probs ->
  (pysum probs <= fst (random_random w2))%Q ->
  (length (_tries b) <= length probs)%nat ->
  bisect (accumulate probs) (fst (random_random w2)) = length probs /\
  turn b w = Raise IndexError.
Proof.
  intros Htf Hsf Hpos Hsum Hlen.
  pose proof (bisect_overshoot probs _ Hpos Hsum) as Hsel.
  split; [exact Hsel|].
  unfold turn, bind. rewrite Htf, Hsf. unfold random.
  destruct (random_random w2) as [x w3]. cbn [fst] in Hsel.
  unfold lift, iadd_item. rewrite Hsel.
  rewrite (lookup_ge_None_2 (_tries b) (length probs) Hlen). reflexivity.
Qed.
End ShortDistribution.

Lemma short_distribution_raises_witness :
  Forall (fun p => 0 <= p)%Q [(1 # 4)%Q; (1 # 4)%Q] /\
  (pysum [(1 # 4)%Q; (1 # 4)%Q] <= 1 # 2)%Q /\
  turn (constructed 2 1 scripted_payoff no_turbulence
          (fixed_strategy [(1 # 4)%Q; (1 # 4)%Q]) 0%Q simplebelief (1 # 2)%Q
          [(9 # 10)%Q; (1 # 10)%Q])
       scenario_world_constructed = Raise IndexError.
Proof.
  assert (Forall (fun p => 0 <= p)%Q [(1 # 4)%Q; (1 # 4)%Q]) as Hpos.
  { repeat constructor; unfold Qle; simpl; lia. }
  assert (pysum [(1 # 4)%Q; (1 # 4)%Q] <= 1 # 2)%Q as Hsum.
  { vm_compute. discriminate. }
  assert (2 <= 2)%nat as Hlen by lia.
  split; [exact Hpos|]. split; [exact Hsum|].
  exact (proj2 (short_distribution_raises
                  (constructed 2 1 scripted_payoff no_turbulence
                     (fixed_strategy [(1 # 4)%Q; (1 # 4)%Q]) 0%Q simplebelief (1 # 2)%Q
                     [(9 # 10)%Q; (1 # 10)%Q])
                  scenario_world_constructed
                  [(9 # 10)%Q; (1 # 10)%Q] scenario_world_constructed
                  [(1 # 4)%Q; (1 # 4)%Q] scenario_world_constructed
                  eq_refl eq_refl Hpos Hsum Hlen)).
Defined.

(** ** The metrics in exact arithmetic *)

Lemma fold_left_Qplus_ge (l : list Q) (s : Q) :
  Forall (fun v => 0 <= v)%Q l -> (s <= fold_left Qplus l s)%Q.
Proof.
  intros Hl. revert s. induction Hl as [|v l Hv Hl IH]; intros s; cbn.
  - apply Qle_refl.
  - eapply Qle_trans; [|apply IH]. lra.
Qed.

Lemma pysum_nonneg (l : list Q) :
  Forall (fun v => 0 <= v)%Q l -> (0 <= pysum l)%Q.
Proof. intros Hl. exact (fold_left_Qplus_ge l 0%Q Hl). Qed.

Lemma map_result_Forall {A B} (f : A -> result B) (P : B -> Prop) (l : list A) vs :
  (forall a v, f a = Ok v -> P v) -> map_result f l = Ok vs -> Forall P vs.
Proof.
  intros Hf. revert vs. induction l as [|a l IH]; intros vs H; cbn in H.
  - injection H as <-. constructor.
  - destruct (f a) as [v|] eqn:Hfa; [|discriminate].
    destruct (map_result f l) as [vs'|]; [|discriminate].
    injection H as <-. constructor; [exact (Hf a v Hfa) | exact (IH vs' eq_refl)].
Qed.

Lemma square_nonneg (x : Q) : (0 <= x * x)%Q.
Proof. destruct x as [n d]. unfold Qle. cbn. nia. Qed.

Lemma knowledge_metric_le_1 (arms : Z) (beliefs payoffs : list Q) (k : Q) :
  knowledge_metric arms beliefs payoffs = Ok k -> (k <= 1)%Q.
Proof.
  unfold knowledge_metric.
  match goal with
  | |- context [map_result ?f ?l] =>
      destruct (map_result f l) as [sq|] eqn:Hsq; [|discriminate];
      pose proof (map_result_Forall f (fun v => 0 <= v)%Q l sq) as Hall
  end.
  intros [= <-].
  assert (0 <= pysum sq)%Q as Hs.
  { apply pysum_nonneg, Hall; [|exact Hsq].
    intros i v. destruct (getitem beliefs i); [|discriminate].
    destruct (getitem payoffs i); [|discriminate].
    intros [= <-]. apply square_nonneg. }
  cbn [sub one Q_Num]. lra.
Qed.

Lemma opinion_metric_nonneg (arms : Z) (beliefs : list Q) (o : Q) :
  opinion_metric arms beliefs = Ok o -> (0 <= o)%Q.
Proof.
  unfold opinion_metric.
  match goal with
  | |- context [map_result ?f ?l] =>
      destruct (map_result f l) as [sq|] eqn:Hsq; [|discriminate];
      pose proof (map_result_Forall f (fun v => 0 <= v)%Q l sq) as Hall
  end.
  intros [= <-]. apply pysum_nonneg, Hall; [|exact Hsq].
  intros i v. destruct (getitem beliefs i); [|discriminate].
  destruct (div_int (pysum beliefs) arms); [|discriminate].
  intros [= <-]. apply square_nonneg.
Qed.

Section MetricExtras.
Context {W : Type} {amb : Ambient W Q}.
Implicit Types (b : @Bandit Q W) (w : W).

Lemma turn_metric_bounds b w b' w' :
  Forall (fun k => k <= 1)%Q (_knowledge b) ->
  Forall (fun o => 0 <= o)%Q (_opinion b) ->
  turn b w = Ok (b', w') ->
  Forall (fun k => k <= 1)%Q (_knowledge b') /\
  Forall (fun o => 0 <= o)%Q (_opinion b').
Proof.
  intros Hk Ho H. apply turn_Ok in H
    as (payoffs & probs & w1 & w2 & t & p & wa & beliefs & k & o & pe & H).
  cbn zeta in H. destruct H as (_ & _ & _ & _ & _ & _ & Ek & Eo & _ & ->). cbn.
  split; apply Forall_app; (split; [assumption|]); repeat constructor.
  - exact (knowledge_metric_le_1 _ _ _ _ Ek).
  - exact (opinion_metric_nonneg _ _ _ Eo).
Qed.

Lemma turns_loop_metric_bounds n b w b' w' :
  Forall (fun k => k <= 1)%Q (_knowledge b) ->
  Forall (fun o => 0 <= o)%Q (_opinion b) ->
  turns_loop n b w = Ok (b', w') ->
  Forall (fun k => k <= 1)%Q (_knowledge b') /\
  Forall (fun o => 0 <= o)%Q (_opinion b').
Proof.
  revert b w. induction n as [|n IH]; intros b w Hk Ho H.
  - apply ret_Ok in H as [-> ->]. auto.
  - cbn in H. bind_inv H b1 w1 H1.
    destruct (turn_metric_bounds _ _ _ _ Hk Ho H1) as [Hk1 Ho1].
    exact (IH _ _ Hk1 Ho1 H).
Qed.

(** X12. In exact arithmetic every recorded knowledge value is at most 1 and
    every recorded opinion value is at least 0, whatever the policy
    functions return. *)
Theorem knowledge_at_most_1_opinion_at_least_0
    arms turns pf tf sf tb bf st w0 (b0 : @Bandit Q W) w1 :
  __init__ arms turns pf tf sf tb bf st w0 = Ok (b0, w1) ->
  (forall n w b w', turns_loop n b0 w = Ok (b, w') ->
     (forall t k, _knowledge b !! t = Some k -> (k <= 1)%Q) /\
     (forall t o, _opinion b !! t = Some o -> (0 <= o)%Q)) /\
  (forall b w, simulate b0 w1 = Ok (b, w) ->
     (forall t k, _knowledge b !! t = Some k -> (k <= 1)%Q) /\
     (forall t o, _opinion b !! t = Some o -> (0 <= o)%Q)).
Proof.
  intros Hinit.
  assert (forall n w b w', turns_loop n b0 w = Ok (b, w') ->
            Forall (fun k => k <= 1)%Q (_knowledge b) /\
            Forall (fun o => 0 <= o)%Q (_opinion b)) as Hall.
  { intros n w b w' Hrun. eapply turns_loop_metric_bounds; [| |exact Hrun].
    - apply init_Ok in Hinit as (payoffs & _ & ->). constructor.
    - apply init_Ok in Hinit as (payoffs & _ & ->). constructor. }
  split.
  - intros n w b w' Hrun. destruct (Hall _ _ _ _ Hrun) as [Hk Ho]. split.
    + intros t k Ht. exact (Forall_lookup_1 _ _ _ _ Hk Ht).
    + intros t o Ht. exact (Forall_lookup_1 _ _ _ _ Ho Ht).
  - intros b w Hsim. apply simulate_Ok in Hsim as (b1 & w2 & Hrun & -> & _).
    destruct (Hall _ _ _ _ Hrun) as [Hk Ho]. cbn. split.
    + intros t k Ht. exact (Forall_lookup_1 _ _ _ _ Hk Ht).
    + intros t o Ht. exact (Forall_lookup_1 _ _ _ _ Ho Ht).
Qed.
End MetricExtras.

Lemma knowledge_at_most_1_opinion_at_least_0_witness :
  exists b w,
    simulate (scenario_bandit 2 3 [(9 # 10)%Q; (1 # 10)%Q])
             scenario_world_constructed = Ok (b, w) /\
    _knowledge b !! 0%nat = Some (186800 # 360000)%Q /\
    ((186800 # 360000) <= 1)%Q.
Proof.
  eexists _, _.
  first_by_evaluation Hsim.
  split; [reflexivity|].
  destruct (knowledge_at_most_1_opinion_at_least_0 _ _ _ _ _ _ _ _ _ _ _
              (scenario_constructed 2 3 eq_refl)) as [_ Hrun].
  exact (proj1 (Hrun _ _ Hsim) 0%nat _ eq_refl).
Defined.

Lemma fold_max_spec (l : list Q) (m0 : Q) :
  (m0 <= fold_left (fun m item => if ltb m item then item else m) l m0)%Q /\
  Forall (fun p => p <= fold_left (fun m item => if ltb m item then item else m) l m0)%Q l /\
  (fold_left (fun m item => if ltb m item then item else m) l m0 = m0 \/
   fold_left (fun m item => if ltb m item then item else m) l m0 ∈ l).
Proof.
  revert m0. induction l as [|p l IH]; intros m0; cbn [fold_left].
  - split; [apply Qle_refl|]. split; [constructor | left; reflexivity].
  - assert (m0 <= (if ltb m0 p then p else m0) /\ p <= (if ltb m0 p then p else m0))%Q
      as [H0 Hp].
    { cbn [ltb Q_Num]. destruct (Qltb m0 p) eqn:E.
      - apply Qltb_true in E. lra.
      - apply Qltb_false in E. lra. }
    destruct (IH (if ltb m0 p then p else m0)) as (Hge & Hall & Hin).
    split; [lra|]. split.
    + constructor; [lra | exact Hall].
    + destruct Hin as [-> | Hin]; [|right; right; exact Hin].
      destruct (ltb m0 p); [right; left | left; reflexivity].
Qed.

(** [max] returns an entry of the list that no entry exceeds. *)
Lemma pymax_spec (l : list Q) (m : Q) :
  pymax l = Ok m -> Forall (fun p => p <= m)%Q l /\ m ∈ l.
Proof.
  destruct l as [|p l]; [discriminate|]. unfold pymax. intros [= <-].
  destruct (fold_max_spec l p) as (Hge & Hall & Hin).
  cbn [ltb Q_Num] in *. split.
  - constructor; assumption.
  - destruct Hin as [-> | Hin]; [left | right; exact Hin].
Qed.

Lemma inject_Z_of_nat_S (n : nat) :
  (inject_Z (Z.of_nat (S n)) == inject_Z (Z.of_nat n) + 1)%Q.
Proof. rewrite Nat2Z.inj_succ. unfold Z.succ. rewrite inject_Z_plus. reflexivity. Qed.

Lemma fold_left_Qplus_le_length_max (l : list Q) (m s : Q) :
  Forall (fun p => p <= m)%Q l ->
  (fold_left Qplus l s <= s + inject_Z (Z.of_nat (length l)) * m)%Q.
Proof.
  intros Hl. revert s. induction Hl as [|p l Hp Hl IH]; intros s; cbn [fold_left length].
  - change (inject_Z (Z.of_nat 0)) with 0%Q. lra.
  - eapply Qle_trans; [apply IH|]. rewrite inject_Z_of_nat_S. lra.
Qed.

Lemma fold_left_Qplus_ge_elem (l : list Q) (m s : Q) :
  m ∈ l -> (0 <= s)%Q -> Forall (fun p => 0 <= p)%Q l -> (m <= fold_left Qplus l s)%Q.
Proof.
  intros Hin. revert s. induction Hin as [m l | m p l Hin IH]; intros s Hs Hpos;
    cbn [fold_left]; inversion Hpos as [|? ? Hp Hl]; subst.
  - eapply Qle_trans; [|apply fold_left_Qplus_ge; exact Hl]. lra.
  - apply IH; [lra | exact Hl].
Qed.

(** For a distribution over [n] arms the explore probability lies between 0
    and [1 - 1/n]. *)
Lemma probexplore_metric_bounds (probs : list Q) (pe : Q) :
  probexplore_metric probs = Ok pe ->
  Forall (fun p => 0 <= p)%Q probs -> (pysum probs == 1)%Q ->
  (0 <= pe)%Q /\
  (inject_Z (Z.of_nat (length probs)) * pe
     <= inject_Z (Z.of_nat (length probs)) - 1)%Q.
Proof.
  unfold probexplore_metric. destruct (pymax probs) as [m|] eqn:Hm; [|discriminate].
  intros [= <-] Hpos Hsum. destruct (pymax_spec _ _ Hm) as [Hall Hin].
  pose proof (fold_left_Qplus_ge_elem probs m 0%Q Hin ltac:(apply Qle_refl) Hpos) as Hle.
  pose proof (fold_left_Qplus_le_length_max probs m 0%Q Hall) as Hge.
  change (fold_left Qplus probs 0%Q) with (pysum probs) in Hle, Hge.
  cbn [sub one Q_Num]. split; [lra|].
  set (n := inject_Z (Z.of_nat (length probs))) in *.
  assert (n * (1 - m) == n - n * m)%Q as Hdist by ring.
  rewrite Hdist. lra.
Qed.

Section ExploreExtras.
Context {W : Type} {amb : Ambient W Q}.
Implicit Types (b : @Bandit Q W) (w : W).

(** X13. The explore probability a turn records is 1 less the largest choice
    probability the strategy function returned; when those probabilities are
    non-negative and add up to 1 over [n] arms, it lies between 0 and
    [1 - 1/n] (stated as [n * pe <= n - 1]). *)
Theorem explore_probability_bounds b w b' w' :
  turn b w = Ok (b', w') ->
  exists payoffs w1 probs w2 pe,
    _turbulence_fxn b (_payoffs b) (_payoff_fxn b) (_turbulence b) w = Ok (payoffs, w1) /\
    _strategy_fxn b (_beliefs b) (_strategy b) w1 = Ok (probs, w2) /\
    _probexplore b' = _probexplore b ++ [pe] /\
    (exists m, pymax probs = Ok m /\ pe = (1 - m)%Q /\ m ∈ probs /\
               Forall (fun p => p <= m)%Q probs) /\
    (Forall (fun p => 0 <= p)%Q probs -> (pysum probs == 1)%Q ->
     (0 <= pe)%Q /\
     (inject_Z (Z.of_nat (length probs)) * pe
        <= inject_Z (Z.of_nat (length probs)) - 1)%Q).
Proof.
  intros H. apply turn_Ok in H
    as (payoffs & probs & w1 & w2 & t & p & wa & beliefs & k & o & pe & H).
  cbn zeta in H. destruct H as (Htf & Hsf & _ & _ & _ & _ & _ & _ & Hpe & ->).
  exists payoffs, w1, probs, w2, pe. cbn.
  split; [exact Htf|]. split; [exact Hsf|]. split; [reflexivity|]. split.
  - unfold probexplore_metric in Hpe.
    destruct (pymax probs) as [m|] eqn:Hm; [|discriminate].
    injection Hpe as <-. destruct (pymax_spec _ _ Hm) as [Hall Hin].
    exists m. auto.
  - intros Hpos Hsum. exact (probexplore_metric_bounds probs pe Hpe Hpos Hsum).
Qed.
End ExploreExtras.

Lemma explore_probability_bounds_witness :
  exists b' w' pe,
    turn (scenario_bandit 2 1 [(9 # 10)%Q; (1 # 10)%Q]) scenario_world_constructed
      = Ok (b', w') /\
    _probexplore b' = [pe] /\
    (0 <= pe)%Q /\ (inject_Z 2 * pe <= inject_Z 2 - 1)%Q.
Proof.
  eexists _, _, _.
  first_by_evaluation Hturn.
  destruct (explore_probability_bounds _ _ _ _ Hturn)
    as (payoffs & w1 & probs & w2 & pe & Htf & Hsf & Hpe & _ & Hbounds).
  vm_compute in Htf. injection Htf as <- <-.
  vm_compute in Hsf. injection Hsf as <- <-.
  vm_compute in Hpe. injection Hpe as <-.
  split; [reflexivity|].
  apply Hbounds.
  - repeat constructor; unfold Qle; simpl; lia.
  - reflexivity.
Defined.

(** ** Complete runs *)

Section CompletionExtras.
Context {W : Type} {amb : Ambient W Q} (good : W -> Prop).
Implicit Types (b : @Bandit Q W) (w : W).

(** X14. With policy functions that keep their contracts (none raises, each
    returns one value per arm, the choice probabilities add up to 1) and
    draws below 1, a run on an object with one entry per arm in each per-arm
    list raises nothing: every turn completes, and [simulate] returns the
    object marked complete, still with one entry per arm. *)
Theorem well_behaved_run_completes b w :
  well_behaved good b -> per_arm b -> good w ->
  (forall n, exists b' w', turns_loop n b w = Ok (b', w') /\ per_arm b') /\
  (exists b' w', simulate b w = Ok (b', w') /\ _complete b' = true /\ per_arm b').
Proof.
  intros Hwb Hpa Hw. split.
  - intros n.
    destruct (turns_loop_completes good n b w Hwb Hpa Hw) as (b' & w' & H & _ & Hpa' & _).
    eauto.
  - pose proof Hwb as (_ & Hnow & _).
    destruct (turns_loop_completes good (Z.to_nat (_turns b)) b (snd (datetime_now w))
                Hwb Hpa (Hnow w Hw)) as (b1 & w2 & Hloop & _ & Hpa1 & _).
    eexists _, _. split; [|split].
    + apply simulate_Ok. exists b1, w2. split; [exact Hloop|]. split; reflexivity.
    + reflexivity.
    + exact Hpa1.
Qed.
End CompletionExtras.

Lemma well_behaved_run_completes_witness :
  exists b' w',
    simulate (scenario_bandit 2 3 [(9 # 10)%Q; (1 # 10)%Q]) scenario_world_constructed
      = Ok (b', w') /\ _complete b' = true /\ per_arm b'.
Proof.
  apply (well_behaved_run_completes draws_below_1).
  - apply scenario_well_behaved.
  - repeat split.
  - repeat constructor.
Defined.

(** ** Payoffs *)

Section PayoffExtras.
Context {R : Type} {num : Num R} {W : Type} {amb : Ambient W R}.
Implicit Types (b : @Bandit R W) (w : W).

Lemma turns_loop_payoffs_kept n b w b' w' :
  (forall payoffs w0, exists w1,
     _turbulence_fxn b payoffs (_payoff_fxn b) (_turbulence b) w0 = Ok (payoffs, w1)) ->
  turns_loop n b w = Ok (b', w') -> _payoffs b' = _payoffs b.
Proof.
  revert b w. induction n as [|n IH]; intros b w Hid H.
  - apply ret_Ok in H as [-> ->]. reflexivity.
  - cbn in H. bind_inv H b1 w1 H1.
    destruct (turn_frame _ _ _ _ H1) as ((_ & _ & Hpf & Htf & Htb & _) & _).
    apply turn_Ok in H1
      as (payoffs & probs & wa & wb & t & p & wo & beliefs & k & o & pe & H1).
    cbn zeta in H1. destruct H1 as (Hturb & _ & _ & _ & _ & _ & _ & _ & _ & Hb1).
    destruct (Hid (_payoffs b) w) as [wid Hsame].
    assert (payoffs = _payoffs b) as -> by congruence.
    rewrite (IH b1 w1); [rewrite Hb1; reflexivity | | exact H].
    rewrite Hpf, Htf, Htb. exact Hid.
Qed.

(** X15. The payoffs are changed by the turbulence function only: when it
    hands back the payoffs it was given, the payoffs after any number of
    turns, and after a whole run, are the ones the object started with. *)
Theorem payoffs_change_only_by_turbulence b :
  (forall payoffs w0, exists w1,
     _turbulence_fxn b payoffs (_payoff_fxn b) (_turbulence b) w0 = Ok (payoffs, w1)) ->
  (forall n w b' w', turns_loop n b w = Ok (b', w') -> _payoffs b' = _payoffs b) /\
  (forall w b' w', simulate b w = Ok (b', w') -> _payoffs b' = _payoffs b).
Proof.
  intros Hid. split.
  - intros n w b' w' H. exact (turns_loop_payoffs_kept n b w b' w' Hid H).
  - intros w b' w' H. apply simulate_Ok in H as (b1 & w2 & Hloop & -> & _).
    cbn. exact (turns_loop_payoffs_kept _ b _ b1 w2 Hid Hloop).
Qed.
End PayoffExtras.

Lemma payoffs_change_only_by_turbulence_witness :
  exists b' w',
    simulate (scenario_bandit 2 3 [(9 # 10)%Q; (1 # 10)%Q]) scenario_world_constructed
      = Ok (b', w') /\
    _payoffs b' = [(9 # 10)%Q; (1 # 10)%Q].
Proof.
  eexists _, _.
  first_by_evaluation Hsim.
  refine (proj2 (payoffs_change_only_by_turbulence
                   (scenario_bandit 2 3 [(9 # 10)%Q; (1 # 10)%Q]) _) _ _ _ Hsim).
  intros payoffs w0. exists w0. reflexivity.
Defined.

(** ** The script *)

Section MainExtras.
Context {R : Type} {num : Num R} {W : Type} {amb : Ambient W R}.

(** X16. Run as a script, the file never fails its assertion (the score of a
    freshly constructed object is [None]) and never reads [_simtime] before
    it is set; when it gets to print, the final asset stock it prints is an
    even integer between -500 and 500. *)
Theorem main_assertion_holds_and_score_bounded
    (betadist_payoff : M W R)
    (randomshock : list R -> M W R -> R -> M W (list R))
    (softmax_strategy : list R -> R -> M W (list R))
    (simplebelief : list R -> list Z -> list Z -> M W (list R)) (w : W) :
  main betadist_payoff randomshock softmax_strategy simplebelief w
    <> MainAssertionError /\
  main betadist_payoff randomshock softmax_strategy simplebelief w
    <> MainAttributeError /\
  (forall final t,
     main betadist_payoff randomshock softmax_strategy simplebelief w
       = MainPrinted final t ->
     exists s, final = Some s /\ -500 <= s <= 500 /\ s mod 2 = 0).
Proof.
  unfold main.
  destruct (__init__ 10 500 betadist_payoff randomshock softmax_strategy zero
                     simplebelief half w) as [[b w1]|e] eqn:Hinit;
    [|repeat split; discriminate].
  assert (fst (score b) = Ok None) as ->.
  { apply init_Ok in Hinit as (payoffs & _ & ->). reflexivity. }
  destruct (simulate b w1) as [[b' w2]|e] eqn:Hsim; [|repeat split; discriminate].
  assert (0 < 500) as Hpos by lia.
  destruct (completed_run_has_final_metrics _ _ _ _ _ _ _ _ _ _ _ _ _
              Hpos Hinit Hsim) as (Hscore & _).
  rewrite Hscore. cbn [fst].
  destruct (simulate_consistent _ _ _ _ _ _ _ _ _ _ _ _ _ Hinit Hsim) as [Hc _].
  pose proof (stock_range _ _ Hc) as [Hrange Hpar].
  apply simulate_Ok in Hsim as (b1 & w3 & _ & Hb' & _).
  assert (exists t, _simtime b' = Some t) as [t ->] by (rewrite Hb'; cbn; eauto).
  split; [discriminate|]. split; [discriminate|].
  intros final t' [= <- <-]. eexists. split; [reflexivity|].
  change (Z.of_nat (Z.to_nat 500)) with 500 in *.
  split; [lia|].
  rewrite <- (Z.mod_add (_assetstock b') 250 2) by lia. exact Hpar.
Qed.
End MainExtras.

(** The world of a script run: ten payoffs for the ten arms. *)
Lemma main_assertion_holds_and_score_bounded_witness :
  exists s t,
    main scripted_payoff no_turbulence uniform_strategy simplebelief
         {| draws := [(1 # 2)%Q; (1 # 20)%Q];
            payoff_draws := replicate 10 (1 # 2)%Q;
            clock := 0 |}
      = MainPrinted (Some s) t /\
    -500 <= s <= 500 /\ s mod 2 = 0.
Proof.
  eexists _, _.
  first_by_evaluation Hmain.
  destruct (main_assertion_holds_and_score_bounded
              scripted_payoff no_turbulence uniform_strategy simplebelief
              {| draws := [(1 # 2)%Q; (1 # 20)%Q];
                 payoff_draws := replicate 10 (1 # 2)%Q;
                 clock := 0 |}) as (_ & _ & Hprinted).
  destruct (Hprinted _ _ Hmain) as (s & [= <-] & Hrange & Hpar).
  split; [exact Hrange | exact Hpar].
Defined.

(** ** What a completed turn says about the policy functions *)

Section UsableOutputs.
Context {R : Type} {num : Num R} {W : Type} {amb : Ambient W R}.
Implicit Types (b : @Bandit R W) (w : W).

(** X17. A turn completes only if the strategy function returned at least
    one probability, the selected index was within [tries] and within the
    payoffs the turbulence function returned, and the payoffs and the new
    beliefs had at least one entry per arm; with any of these missing the
    turn raises. *)
Theorem completed_turn_had_usable_outputs b w b' w' :
  turn b w = Ok (b', w') ->
  exists payoffs w1 probs w2,
    _turbulence_fxn b (_payoffs b) (_payoff_fxn b) (_turbulence b) w = Ok (payoffs, w1) /\
    _strategy_fxn b (_beliefs b) (_strategy b) w1 = Ok (probs, w2) /\
    probs <> [] /\
    (bisect (accumulate probs) (fst (random_random w2)) < length (_tries b))%nat /\
    (bisect (accumulate probs) (fst (random_random w2)) < length payoffs)%nat /\
    _payoffs b' = payoffs /\
    (Z.to_nat (_arms b) <= length payoffs)%nat /\
    (Z.to_nat (_arms b) <= length (_beliefs b'))%nat.
Proof.
  intros H. apply turn_Ok in H
    as (payoffs & probs & w1 & w2 & t & p & wa & beliefs & k & o & pe & H).
  cbn zeta in H.
  destruct H as (Htf & Hsf & Ht & Hp & _ & _ & Hk & _ & Hpe & ->).
  exists payoffs, w1, probs, w2. cbn.
  destruct (knowledge_metric_Ok_lengths _ _ _ _ Hk) as [Hlb Hlp].
  split; [exact Htf|]. split; [exact Hsf|]. split.
  { intros ->. discriminate. }
  split; [eapply lookup_lt_Some; exact Ht|].
  split; [eapply lookup_lt_Some; exact Hp|]. auto.
Qed.
End UsableOutputs.

Lemma completed_turn_had_usable_outputs_witness :
  exists b' w',
    turn (scenario_bandit 2 1 [(9 # 10)%Q; (1 # 10)%Q]) scenario_world_constructed
      = Ok (b', w') /\
    (2 <= length (_payoffs b'))%nat /\ (2 <= length (_beliefs b'))%nat.
Proof.
  eexists _, _.
  first_by_evaluation Hturn.
  destruct (completed_turn_had_usable_outputs _ _ _ _ Hturn)
    as (payoffs & w1 & probs & w2 & _ & _ & _ & _ & _ & Hsame & Hp & Hb).
  rewrite Hsame. split; [exact Hp | exact Hb].
Defined.

(** ** The arm selection in binary64 *)

Section SelectionOutOfRange.
Context {R : Type} {num : Num R} {W : Type} {amb : Ambient W R}.
Implicit Types (b : @Bandit R W) (w : W).

(** A turn whose selected index is not within [tries] raises [IndexError],
    at [self._tries[choice] += 1]. *)
Lemma turn_raises_past_last_arm b w payoffs w1 probs w2 :
  _turbulence_fxn b (_payoffs b) (_payoff_fxn b) (_turbulence b) w = Ok (payoffs, w1) ->
  _strategy_fxn b (_beliefs b) (_strategy b) w1 = Ok (probs, w2) ->
  (length (_tries b) <= bisect (accumulate probs) (fst (random_random w2)))%nat ->
  turn b w = Raise IndexError.
Proof.
  intros Htf Hsf Hlen. unfold turn, bind. rewrite Htf, Hsf. unfold random.
  destruct (random_random w2) as [x w3]. cbn [fst] in Hlen.
  unfold lift, iadd_item. rewrite (lookup_ge_None_2 _ _ Hlen). reflexivity.
Qed.
End SelectionOutOfRange.

(** C10. The claim fails on floats.  The five choice probabilities
    [1 - 2^-53, 2^-55, 2^-55, 2^-55, 2^-55] are non-negative and add up to
    exactly 1, and the draw [1 - 2^-53] lies in [0, 1); but each addition of
    [2^-55] is rounded away, every running sum is [1 - 2^-53], no running
    sum exceeds the draw, the selected index is 5, one past the last of the
    five arms, [self._tries[choice] += 1] raises [IndexError], and so does
    the run. *)
Theorem rounded_running_sums_select_past_last_arm
    (float_pow : float -> float -> result float) :
  (float_value 0x1.fffffffffffffp-1%float
     = Some (9007199254740991 # 9007199254740992)%Q /\
   float_value 0x1p-55%float
     = Some (4503599627370496 # 162259276829213363391578010288128)%Q /\
   (0 <= 9007199254740991 # 9007199254740992 < 1)%Q /\
   (0 <= 4503599627370496 # 162259276829213363391578010288128)%Q /\
   (pysum [9007199254740991 # 9007199254740992;
           4503599627370496 # 162259276829213363391578010288128;
           4503599627370496 # 162259276829213363391578010288128;
           4503599627370496 # 162259276829213363391578010288128;
           4503599627370496 # 162259276829213363391578010288128] == 1)%Q) /\
  accumulate (num := Float_Num float_pow) rounding_probabilities
    = replicate 5 rounding_draw /\
  bisect (num := Float_Num float_pow)
    (accumulate (num := Float_Num float_pow) rounding_probabilities) rounding_draw
    = 5%nat /\
  iadd_item [0; 0; 0; 0; 0]
    (bisect (num := Float_Num float_pow)
       (accumulate (num := Float_Num float_pow) rounding_probabilities)
       rounding_draw) 1
    = Raise IndexError /\
  rounding_run float_pow {| float_draws := [rounding_draw]; float_clock := 0 |}
    = Raise IndexError.
Proof.
  assert (accumulate (num := Float_Num float_pow) rounding_probabilities
          = replicate 5 rounding_draw) as Hsums.
  { vm_compute. reflexivity. }
  assert (bisect (num := Float_Num float_pow) (replicate 5 rounding_draw) rounding_draw
          = 5%nat) as Hsel.
  { vm_compute. reflexivity. }
  split; [|split; [exact Hsums|]].
  - split; [vm_compute; reflexivity|]. split; [vm_compute; reflexivity|].
    split; [split; [discriminate | reflexivity]|].
    split; [discriminate | reflexivity].
  - rewrite Hsums, Hsel. split; [reflexivity|]. split; [reflexivity|].
    vm_compute. reflexivity.
Qed.
